(** * Flocking kernel of the sCATsaver screensaver: a shallow embedding

    The C++ program simulates a flock of birds ("boids").  Its numeric core
    is written over [float] (and [double] inside the statistics).  The
    embedding below is written once, over an interface of the arithmetic the
    source uses, and instantiated twice:

    - at IEEE-754 binary32/binary64 (round to nearest even, from the
      Standard Library's [SpecFloat]), where every definition evaluates, and
    - at the real numbers, the idealised arithmetic in which the general
      numeric facts (magnitude bounds, means) are stated. *)

From Stdlib Require Import ZArith List Bool Lia.
From Stdlib Require Import Reals Lra.
From Stdlib Require Import QArith Qabs.
From Stdlib Require Import Floats.SpecFloat.
Import ListNotations.

Set Implicit Arguments.

(** ** The arithmetic of the source *)

(** Operations the source applies to a [float]: the four operations, [sqrt],
    [std::abs], unary minus, the comparison [<] ([a > b] is [b < a]), the
    implicit conversion from [int], and decimal literals ([lit n d] is the
    literal whose decimal value is [n/d], so [lit 3 100] is [0.03f]). *)
Class FloatOps (F : Type) : Type := {
  fadd : F -> F -> F;
  fsub : F -> F -> F;
  fmul : F -> F -> F;
  fdiv : F -> F -> F;
  fsqrt : F -> F;
  fabs : F -> F;
  fneg : F -> F;
  fltb : F -> F -> bool;
  of_int : Z -> F;
  lit : Z -> positive -> F
}.

Definition fgtb {F} `{FloatOps F} (a b : F) : bool := fltb b a.
Definition fzero {F} `{FloatOps F} : F := of_int 0.

(** Conversions between [float] and [double]: [static_cast<float>] of a
    [double], and the implicit promotion of a [float]. *)
Class FloatConv (F D : Type) : Type := {
  to_double : F -> D;
  to_float : D -> F
}.

(** *** IEEE-754 instances *)

Module IEEE.

Section Format.
Variables prec emax : Z.

Definition sf_of_int (z : Z) : spec_float :=
  binary_normalize prec emax z 0 false.

(** Rounding of a finite value of another format into this one. *)
Definition sf_round (v : spec_float) : spec_float :=
  match v with
  | S754_finite s m e => binary_normalize prec emax (cond_Zopp s (Zpos m)) e s
  | _ => v
  end.

Definition sf_lit (n : Z) (d : positive) : spec_float :=
  SFdiv prec emax (sf_of_int n) (sf_of_int (Zpos d)).
End Format.

(** C++ [float]: binary32. *)
Record float : Type := F32 { f32 : spec_float }.
(** C++ [double]: binary64. *)
Record double : Type := F64 { f64 : spec_float }.

Definition lift32_2 (op : Z -> Z -> spec_float -> spec_float -> spec_float)
    (a b : float) : float := F32 (op 24%Z 128%Z (f32 a) (f32 b)).
Definition lift64_2 (op : Z -> Z -> spec_float -> spec_float -> spec_float)
    (a b : double) : double := F64 (op 53%Z 1024%Z (f64 a) (f64 b)).

#[global] Instance float_ops : FloatOps float := {|
  fadd := lift32_2 SFadd;
  fsub := lift32_2 SFsub;
  fmul := lift32_2 SFmul;
  fdiv := lift32_2 SFdiv;
  fsqrt := fun a => F32 (SFsqrt 24 128 (f32 a));
  fabs := fun a => F32 (SFabs (f32 a));
  fneg := fun a => F32 (SFopp (f32 a));
  fltb := fun a b => SFltb (f32 a) (f32 b);
  of_int := fun z => F32 (sf_of_int 24 128 z);
  lit := fun n d => F32 (sf_lit 24 128 n d)
|}.

#[global] Instance double_ops : FloatOps double := {|
  fadd := lift64_2 SFadd;
  fsub := lift64_2 SFsub;
  fmul := lift64_2 SFmul;
  fdiv := lift64_2 SFdiv;
  fsqrt := fun a => F64 (SFsqrt 53 1024 (f64 a));
  fabs := fun a => F64 (SFabs (f64 a));
  fneg := fun a => F64 (SFopp (f64 a));
  fltb := fun a b => SFltb (f64 a) (f64 b);
  of_int := fun z => F64 (sf_of_int 53 1024 z);
  lit := fun n d => F64 (sf_lit 53 1024 n d)
|}.

#[global] Instance float_double : FloatConv float double := {|
  to_double := fun a => F64 (sf_round 53 1024 (f32 a));
  to_float := fun a => F32 (sf_round 24 128 (f64 a))
|}.

(** The exact rational value of a finite float; zero for the others. *)
Definition Q_of_sf (v : spec_float) : Q :=
  match v with
  | S754_finite s m e =>
      let z := cond_Zopp s (Zpos m) in
      match e with
      | Zneg p => Qmake z (2 ^ p)
      | _ => inject_Z (z * 2 ^ e)
      end
  | _ => 0%Q
  end.

Definition is_finite (v : spec_float) : bool :=
  match v with
  | S754_zero _ | S754_finite _ _ _ => true
  | _ => false
  end.

End IEEE.

(** *** The real numbers *)

(** The arithmetic without rounding.  Two things of a [float] are not in
    it.  Division by zero: [x / 0] is [0] in [R], where a [float] gives an
    infinity or NaN.  Rounding: a [float] sum can absorb a small term, and
    two ways of writing one quantity can round to different values.  A
    statement over the reals therefore keeps every divisor away from zero,
    by a hypothesis (a window height that is not zero, a positive
    [RAND_MAX]) or by the guard of the source ([mag > 0], [count > 0],
    [s2 > 0]); where rounding decides which branch of a guard is taken,
    the statement is made in binary32. *)

Module Exact.

Definition Rltb (a b : R) : bool := if Rlt_dec a b then true else false.

#[global] Instance R_ops : FloatOps R := {|
  fadd := Rplus;
  fsub := Rminus;
  fmul := Rmult;
  fdiv := Rdiv;
  fsqrt := sqrt;
  fabs := Rabs;
  fneg := Ropp;
  fltb := Rltb;
  of_int := IZR;
  lit := fun n d => (IZR n / IZR (Zpos d))%R
|}.

#[global] Instance R_R : FloatConv R R := {|
  to_double := fun a => a;
  to_float := fun a => a
|}.

End Exact.

(** ** [struct Vector2D] *)

Record Vector2D (F : Type) : Type := Vec { x : F; y : F }.
Arguments Vec {F} _ _.
Arguments x {F} _.
Arguments y {F} _.

Section Vector2D_ops.
Context {F : Type} {ops : FloatOps F}.

(** [Vector2D()] and [Vector2D(0, 0)]. *)
Definition vzero : Vector2D F := Vec fzero fzero.

(** [operator+] and [operator+=]. *)
Definition vadd (a other : Vector2D F) : Vector2D F :=
  Vec (fadd (x a) (x other)) (fadd (y a) (y other)).

(** [operator-] and [operator-=]. *)
Definition vsub (a other : Vector2D F) : Vector2D F :=
  Vec (fsub (x a) (x other)) (fsub (y a) (y other)).

(** [operator*(float)] and [operator*=]. *)
Definition vscale (a : Vector2D F) (scalar : F) : Vector2D F :=
  Vec (fmul (x a) scalar) (fmul (y a) scalar).

(** [operator/(float)] and [operator/=]. *)
Definition vdiv (a : Vector2D F) (scalar : F) : Vector2D F :=
  Vec (fdiv (x a) scalar) (fdiv (y a) scalar).

(** [magnitude()]: [sqrt(x * x + y * y)], the sum taken in [float] and the
    root returned as a [float]. *)
Definition magnitude (a : Vector2D F) : F :=
  fsqrt (fadd (fmul (x a) (x a)) (fmul (y a) (y a))).

(** [normalize()]: divides by the magnitude when [mag > 0]. *)
Definition normalize (a : Vector2D F) : Vector2D F :=
  let mag := magnitude a in
  if fgtb mag fzero then Vec (fdiv (x a) mag) (fdiv (y a) mag) else a.

(** [normalized()], as written: it copies [*this] into [result], calls
    [result.normalized()] (itself, not [normalize()]), and returns
    [result].  The recursion has no base case; [fuel] bounds the depth of
    the call stack and [None] is the call that did not return. *)
Fixpoint normalized (fuel : nat) (a : Vector2D F) : option (Vector2D F) :=
  match fuel with
  | O => None
  | S fuel' =>
      let result := a in
      match normalized fuel' result with
      | Some _ => Some result
      | None => None
      end
  end.

(** [limit(maxMag)]. *)
Definition limit (a : Vector2D F) (maxMag : F) : Vector2D F :=
  if fgtb (magnitude a) maxMag then vscale (normalize a) maxMag else a.

(** [Vector2D::distance(a, b)]. *)
Definition distance (a b : Vector2D F) : F := magnitude (vsub a b).

End Vector2D_ops.

(** ** [class Bird] *)

Record Bird (F : Type) : Type := mkBird {
  position : Vector2D F;
  velocity : Vector2D F;
  acceleration : Vector2D F;
  r : F;
  maxSpeed : F;
  maxForce : F;
  separationRadius : F;
  alignmentRadius : F;
  cohesionRadius : F;
  red : Z; green : Z; blue : Z; alpha : Z
}.
Arguments mkBird {F}.
Arguments position {F} _.
Arguments velocity {F} _.
Arguments acceleration {F} _.
Arguments r {F} _.
Arguments maxSpeed {F} _.
Arguments maxForce {F} _.
Arguments separationRadius {F} _.
Arguments alignmentRadius {F} _.
Arguments cohesionRadius {F} _.
Arguments red {F} _.
Arguments green {F} _.
Arguments blue {F} _.
Arguments alpha {F} _.

Section Bird_ops.
Context {F : Type} {ops : FloatOps F}.

Definition set_position (b : Bird F) (p : Vector2D F) : Bird F :=
  mkBird p (velocity b) (acceleration b) (r b) (maxSpeed b) (maxForce b)
    (separationRadius b) (alignmentRadius b) (cohesionRadius b)
    (red b) (green b) (blue b) (alpha b).
Definition set_velocity (b : Bird F) (v : Vector2D F) : Bird F :=
  mkBird (position b) v (acceleration b) (r b) (maxSpeed b) (maxForce b)
    (separationRadius b) (alignmentRadius b) (cohesionRadius b)
    (red b) (green b) (blue b) (alpha b).
Definition set_acceleration (b : Bird F) (a : Vector2D F) : Bird F :=
  mkBird (position b) (velocity b) a (r b) (maxSpeed b) (maxForce b)
    (separationRadius b) (alignmentRadius b) (cohesionRadius b)
    (red b) (green b) (blue b) (alpha b).

(** The constructor [Bird(x, y)].  Its draws from [rand()] are arguments:
    [vel] is [Vector2D::fromAngle(angle) * 2.0f] and [cr], [cg], [cb] are
    the colour. *)
Definition Bird_new (px py : F) (vel : Vector2D F) (cr cg cb : Z) : Bird F :=
  mkBird (Vec px py) vel (Vec (of_int 0) (of_int 0))
    (lit 4 1) (lit 2 1) (lit 3 100)
    (lit 25 1) (lit 50 1) (lit 50 1)
    cr cg cb 255.

(** [update()]. *)
Definition update (b : Bird F) : Bird F :=
  let b := set_velocity b (vadd (velocity b) (acceleration b)) in
  let b := set_velocity b (limit (velocity b) (maxSpeed b)) in
  let b := set_position b (vadd (position b) (velocity b)) in
  set_acceleration b (vscale (acceleration b) (of_int 0)).

(** [applyForce(force)]. *)
Definition applyForce (b : Bird F) (force : Vector2D F) : Bird F :=
  set_acceleration b (vadd (acceleration b) force).

(** [seek(target)]. *)
Definition seek (b : Bird F) (target : Vector2D F) : Vector2D F :=
  let desired := vsub target (position b) in
  let desired := normalize desired in
  let desired := vscale desired (maxSpeed b) in
  let steer := vsub desired (velocity b) in
  limit steer (maxForce b).

(** The test of the three neighbour loops: [d > 0 && d < radius]. *)
Definition in_range (b other : Bird F) (radius : F) : bool :=
  let d := distance (position b) (position other) in
  fgtb d fzero && fltb d radius.

(** Body of the loop of [separate]; the state is [(steer, count)]. *)
Definition separate_step (b : Bird F) (st : Vector2D F * Z) (other : Bird F)
    : Vector2D F * Z :=
  let d := distance (position b) (position other) in
  if fgtb d fzero && fltb d (separationRadius b) then
    let diff := vsub (position b) (position other) in
    let diff := normalize diff in
    let diff := vdiv diff d in
    (vadd (fst st) diff, (snd st + 1)%Z)
  else st.

(** [separate(birds)]. *)
Definition separate (b : Bird F) (birds : list (Bird F)) : Vector2D F :=
  let st := fold_left (separate_step b) birds (vzero, 0%Z) in
  let steer := fst st in
  let count := snd st in
  if (count >? 0)%Z then
    let steer := vdiv steer (of_int count) in
    if fgtb (magnitude steer) fzero then
      let steer := normalize steer in
      let steer := vscale steer (maxSpeed b) in
      let steer := vsub steer (velocity b) in
      limit steer (maxForce b)
    else steer
  else steer.

(** Body of the loop of [cohesion]; the state is [(sum, count)]. *)
Definition cohesion_step (b : Bird F) (st : Vector2D F * Z) (other : Bird F)
    : Vector2D F * Z :=
  let d := distance (position b) (position other) in
  if fgtb d fzero && fltb d (cohesionRadius b) then
    (vadd (fst st) (position other), (snd st + 1)%Z)
  else st.

(** [cohesion(birds)]. *)
Definition cohesion (b : Bird F) (birds : list (Bird F)) : Vector2D F :=
  let st := fold_left (cohesion_step b) birds (vzero, 0%Z) in
  let sum := fst st in
  let count := snd st in
  if (count >? 0)%Z then
    let sum := vdiv sum (of_int count) in
    seek b sum
  else Vec (of_int 0) (of_int 0).

(** Body of the loop of [align]; the state is [(sum, count)]. *)
Definition align_step (b : Bird F) (st : Vector2D F * Z) (other : Bird F)
    : Vector2D F * Z :=
  let d := distance (position b) (position other) in
  if fgtb d fzero && fltb d (alignmentRadius b) then
    (vadd (fst st) (velocity other), (snd st + 1)%Z)
  else st.

(** [align(birds)]. *)
Definition align (b : Bird F) (birds : list (Bird F)) : Vector2D F :=
  let st := fold_left (align_step b) birds (vzero, 0%Z) in
  let sum := fst st in
  let count := snd st in
  if (count >? 0)%Z then
    let sum := vdiv sum (of_int count) in
    let sum := normalize sum in
    let sum := vscale sum (maxSpeed b) in
    let steer := vsub sum (velocity b) in
    limit steer (maxForce b)
  else Vec (of_int 0) (of_int 0).

(** [environmentalBias(windowWidth, windowHeight)].  [abs] is the absolute
    value of a [float], as [std::abs] is in [updateParallel]. *)
Definition environmentalBias (b : Bird F) (windowWidth windowHeight : Z)
    : Vector2D F :=
  let bias_x := lit 5 10 in
  let upperHalf := fmul (of_int windowHeight) (lit 3 10) in
  let bias_y :=
    if fgtb (y (position b)) upperHalf then
      let distanceFromTop := fdiv (fsub (y (position b)) upperHalf) upperHalf in
      fmul (fneg distanceFromTop) (lit 8 10)
    else lit 15 100 in
  let idealY := fmul (of_int windowHeight) (lit 2 10) in
  let distanceFromIdeal :=
    fdiv (fabs (fsub (y (position b)) idealY))
         (fmul (of_int windowHeight) (lit 5 10)) in
  let steer := Vec bias_x bias_y in
  let steer := normalize steer in
  let steer :=
    vscale steer
      (fmul (maxSpeed b) (fadd (lit 3 10) (fmul distanceFromIdeal (lit 5 10)))) in
  let steer := vsub steer (velocity b) in
  limit steer (fmul (maxForce b) (lit 5 10)).

(** [flock(birds, windowWidth, windowHeight)]. *)
Definition flock (b : Bird F) (birds : list (Bird F))
    (windowWidth windowHeight : Z) : Bird F :=
  let sep := separate b birds in
  let ali := align b birds in
  let coh := cohesion b birds in
  let bias := environmentalBias b windowWidth windowHeight in
  let sep := vscale sep (lit 15 10) in
  let ali := vscale ali (lit 1 1) in
  let coh := vscale coh (lit 1 1) in
  let bias := vscale bias (lit 8 10) in
  let b := applyForce b sep in
  let b := applyForce b ali in
  let b := applyForce b coh in
  applyForce b bias.

(** [borders(width, height)]: four tests, in the order of the source. *)
Definition borders (b : Bird F) (width height : Z) : Bird F :=
  let b :=
    if fltb (x (position b)) (fneg (r b))
    then set_position b (Vec (fadd (of_int width) (r b)) (y (position b)))
    else b in
  let b :=
    if fltb (y (position b)) (fneg (r b))
    then set_position b (Vec (x (position b)) (fadd (of_int height) (r b)))
    else b in
  let b :=
    if fgtb (x (position b)) (fadd (of_int width) (r b))
    then set_position b (Vec (fneg (r b)) (y (position b)))
    else b in
  if fgtb (y (position b)) (fadd (of_int height) (r b))
  then set_position b (Vec (x (position b)) (fneg (r b)))
  else b.

End Bird_ops.

(** ** [class FlockingSystem] *)

Record FlockingSystem (F : Type) : Type := mkFlock {
  birds : list (Bird F);
  windowWidth : Z;
  windowHeight : Z
}.
Arguments mkFlock {F}.
Arguments birds {F} _.
Arguments windowWidth {F} _.
Arguments windowHeight {F} _.

(** [l[i] = f(l[i])], the write through a reference into a [std::vector]. *)
Fixpoint update_at {A : Type} (i : nat) (f : A -> A) (l : list A) : list A :=
  match l, i with
  | [], _ => []
  | a :: l', O => f a :: l'
  | a :: l', S i' => a :: update_at i' f l'
  end.

(** [static_cast<int>] of a [size_t]: the value modulo [2^32], read as a
    signed 32-bit integer. *)
Definition int_of_size_t (n : nat) : Z :=
  ((Z.of_nat n + 2 ^ 31) mod 2 ^ 32 - 2 ^ 31)%Z.

Definition INT_MAX : Z := (2 ^ 31 - 1)%Z.

(** The accumulators of the neighbour loop of [updateParallel]. *)
Record Accum (F : Type) : Type := mkAccum {
  sep_x : F; sep_y : F; sep_c : Z;
  ali_x : F; ali_y : F; ali_c : Z;
  coh_x : F; coh_y : F; coh_c : Z
}.
Arguments mkAccum {F}.
Arguments sep_x {F} _.
Arguments sep_y {F} _.
Arguments sep_c {F} _.
Arguments ali_x {F} _.
Arguments ali_y {F} _.
Arguments ali_c {F} _.
Arguments coh_x {F} _.
Arguments coh_y {F} _.
Arguments coh_c {F} _.

Section FlockingSystem_ops.
Context {F : Type} {ops : FloatOps F}.

(** [addBoid(x, y)], with the constructor's random draws as arguments. *)
Definition addBoid (fs : FlockingSystem F) (px py : F) (vel : Vector2D F)
    (cr cg cb : Z) : FlockingSystem F :=
  mkFlock (birds fs ++ [Bird_new px py vel cr cg cb])
    (windowWidth fs) (windowHeight fs).

(** [resize(width, height)]. *)
Definition resize (fs : FlockingSystem F) (width height : Z) : FlockingSystem F :=
  mkFlock (birds fs) width height.

(** [getBoidCount()]. *)
Definition getBoidCount (fs : FlockingSystem F) : nat := length (birds fs).

(** First loop of [updateSerial]: [bird.flock(birds, ...)] for each
    element of [birds], written back in place; the vector every call
    reads is the one the earlier calls have already written to. *)
Definition flock_pass (bs : list (Bird F)) (w h : Z) : list (Bird F) :=
  fold_left (fun cur i => update_at i (fun bird => flock bird cur w h) cur)
    (seq 0 (length bs)) bs.

(** [updateSerial()]. *)
Definition updateSerial (fs : FlockingSystem F) : FlockingSystem F :=
  let w := windowWidth fs in
  let h := windowHeight fs in
  let bs := flock_pass (birds fs) w h in
  let bs := map (fun boid => borders (update boid) w h) bs in
  mkFlock bs w h.

(** The lambda [fast_limit] of [updateParallel]. *)
Definition fast_limit (vx vy maxMag : F) : F * F :=
  let s2 := fadd (fmul vx vx) (fmul vy vy) in
  let m2 := fmul maxMag maxMag in
  if fgtb s2 m2 && fgtb s2 (of_int 0) then
    let inv := fdiv maxMag (fsqrt s2) in
    (fmul vx inv, fmul vy inv)
  else (vx, vy).

(** Body of the neighbour loop ([for j]) of [updateParallel]; the
    reduction is taken in index order. *)
Definition neighbour_step (pix piy sepR2 aliR2 cohR2 : F)
    (px py vx vy : list F) (st : Accum F) (j : nat) : Accum F :=
  let dx := fsub pix (nth j px fzero) in
  let dy := fsub piy (nth j py fzero) in
  let d2 := fadd (fmul dx dx) (fmul dy dy) in
  if fgtb d2 (of_int 0) then
    let st :=
      if fltb d2 sepR2 then
        let invd := fdiv (lit 1 1) (fsqrt d2) in
        mkAccum (fadd (sep_x st) (fmul (fmul dx invd) invd))
                (fadd (sep_y st) (fmul (fmul dy invd) invd))
                (sep_c st + 1)%Z
                (ali_x st) (ali_y st) (ali_c st)
                (coh_x st) (coh_y st) (coh_c st)
      else st in
    let st :=
      if fltb d2 aliR2 then
        mkAccum (sep_x st) (sep_y st) (sep_c st)
                (fadd (ali_x st) (nth j vx fzero))
                (fadd (ali_y st) (nth j vy fzero))
                (ali_c st + 1)%Z
                (coh_x st) (coh_y st) (coh_c st)
      else st in
    if fltb d2 cohR2 then
      mkAccum (sep_x st) (sep_y st) (sep_c st)
              (ali_x st) (ali_y st) (ali_c st)
              (fadd (coh_x st) (nth j px fzero))
              (fadd (coh_y st) (nth j py fzero))
              (coh_c st + 1)%Z
    else st
  else st.

(** The steering shared by the four blocks of [updateParallel] once the
    direction [(sx, sy)] and its squared length [s2 > 0] are known:
    normalise by [1 / sqrt(s2)], scale to [speed], subtract the velocity,
    [fast_limit]. *)
Definition par_steer (sx sy s2 speed vix viy cap : F) : F * F :=
  let inv := fdiv (lit 1 1) (fsqrt s2) in
  let sx := fmul sx inv in
  let sy := fmul sy inv in
  let sx := fmul sx speed in
  let sy := fmul sy speed in
  let sx := fsub sx vix in
  let sy := fsub sy viy in
  fast_limit sx sy cap.

(** Body of the force loop ([for i]) of [updateParallel]: the pair
    [(ax[i], ay[i])]. *)
Definition parallel_force (bs : list (Bird F)) (h : Z)
    (px py vx vy : list F) (sepR2 aliR2 cohR2 : F) (i : nat) (bi : Bird F)
    : F * F :=
  let n := length bs in
  let pix := nth i px fzero in
  let piy := nth i py fzero in
  let vix := nth i vx fzero in
  let viy := nth i vy fzero in
  let st :=
    fold_left (neighbour_step pix piy sepR2 aliR2 cohR2 px py vx vy)
      (seq 0 n)
      (mkAccum (of_int 0) (of_int 0) 0%Z (of_int 0) (of_int 0) 0%Z
               (of_int 0) (of_int 0) 0%Z) in
  let acc_x := of_int 0 in
  let acc_y := of_int 0 in
  (* Separation (weight 1.5) *)
  let '(acc_x, acc_y) :=
    if (sep_c st >? 0)%Z then
      let sx := fdiv (sep_x st) (of_int (sep_c st)) in
      let sy := fdiv (sep_y st) (of_int (sep_c st)) in
      let s2 := fadd (fmul sx sx) (fmul sy sy) in
      if fgtb s2 (of_int 0) then
        let '(sx, sy) := par_steer sx sy s2 (maxSpeed bi) vix viy (maxForce bi) in
        (fadd acc_x (fmul (lit 15 10) sx), fadd acc_y (fmul (lit 15 10) sy))
      else (acc_x, acc_y)
    else (acc_x, acc_y) in
  (* Alignment *)
  let '(acc_x, acc_y) :=
    if (ali_c st >? 0)%Z then
      let axm := fdiv (ali_x st) (of_int (ali_c st)) in
      let aym := fdiv (ali_y st) (of_int (ali_c st)) in
      let s2 := fadd (fmul axm axm) (fmul aym aym) in
      if fgtb s2 (of_int 0) then
        let '(axm, aym) := par_steer axm aym s2 (maxSpeed bi) vix viy (maxForce bi) in
        (fadd acc_x axm, fadd acc_y aym)
      else (acc_x, acc_y)
    else (acc_x, acc_y) in
  (* Cohesion *)
  let '(acc_x, acc_y) :=
    if (coh_c st >? 0)%Z then
      let tx := fdiv (coh_x st) (of_int (coh_c st)) in
      let ty := fdiv (coh_y st) (of_int (coh_c st)) in
      let dx := fsub tx pix in
      let dy := fsub ty piy in
      let s2 := fadd (fmul dx dx) (fmul dy dy) in
      if fgtb s2 (of_int 0) then
        let '(dx, dy) := par_steer dx dy s2 (maxSpeed bi) vix viy (maxForce bi) in
        (fadd acc_x dx, fadd acc_y dy)
      else (acc_x, acc_y)
    else (acc_x, acc_y) in
  (* Environmental bias *)
  let bx := lit 5 10 in
  let upperHalf := fmul (of_int h) (lit 3 10) in
  let by_ :=
    if fgtb piy upperHalf then
      let distanceFromTop := fdiv (fsub piy upperHalf) upperHalf in
      fmul (fneg distanceFromTop) (lit 8 10)
    else lit 15 100 in
  let idealY := fmul (of_int h) (lit 2 10) in
  let distanceFromIdeal :=
    fdiv (fabs (fsub piy idealY)) (fmul (of_int h) (lit 5 10)) in
  let bsx := bx in
  let bsy := by_ in
  let b2 := fadd (fmul bsx bsx) (fmul bsy bsy) in
  if fgtb b2 (of_int 0) then
    let speed :=
      fmul (maxSpeed bi) (fadd (lit 3 10) (fmul distanceFromIdeal (lit 5 10))) in
    let '(bsx, bsy) :=
      par_steer bsx bsy b2 speed vix viy (fmul (maxForce bi) (lit 5 10)) in
    (fadd acc_x (fmul (lit 8 10) bsx), fadd acc_y (fmul (lit 8 10) bsy))
  else (acc_x, acc_y).

(** Body of the integration loop of [updateParallel]. *)
Definition integrate (w h : Z) (bi : Bird F) (a : F * F) : Bird F :=
  let bi :=
    set_acceleration bi
      (Vec (fadd (x (acceleration bi)) (fst a))
           (fadd (y (acceleration bi)) (snd a))) in
  let bi := update bi in
  borders bi w h.

(** [updateParallel()].  Each iteration of the three [omp parallel for]
    loops reads the snapshot and writes only its own slot, so the loops
    are taken in index order. *)
Definition updateParallel (fs : FlockingSystem F) : FlockingSystem F :=
  match birds fs with
  | [] => fs
  | b0 :: _ =>
      let bs := birds fs in
      let w := windowWidth fs in
      let h := windowHeight fs in
      let px := map (fun b => x (position b)) bs in
      let py := map (fun b => y (position b)) bs in
      let vx := map (fun b => x (velocity b)) bs in
      let vy := map (fun b => y (velocity b)) bs in
      let sepR2 := fmul (separationRadius b0) (separationRadius b0) in
      let aliR2 := fmul (alignmentRadius b0) (alignmentRadius b0) in
      let cohR2 := fmul (cohesionRadius b0) (cohesionRadius b0) in
      let a :=
        map (fun ib => parallel_force bs h px py vx vy sepR2 aliR2 cohR2
                         (fst ib) (snd ib))
            (combine (seq 0 (length bs)) bs) in
      mkFlock (map (fun ba => integrate w h (fst ba) (snd ba)) (combine bs a)) w h
  end.

(** [removeBoids(count)].  [birds.end() - count] with a negative [count]
    lies past the end of the vector: the behaviour is undefined, [None]. *)
Definition removeBoids (fs : FlockingSystem F) (count : Z)
    : option (FlockingSystem F) :=
  if (count >=? int_of_size_t (length (birds fs)))%Z then
    Some (mkFlock [] (windowWidth fs) (windowHeight fs))
  else if (count <? 0)%Z then None
  else
    Some (mkFlock (firstn (length (birds fs) - Z.to_nat count) (birds fs))
            (windowWidth fs) (windowHeight fs)).

End FlockingSystem_ops.

(** *** The statistics, which accumulate in [double] *)

Section FlockingSystem_stats.
Context {F D : Type} {ops : FloatOps F} {dops : FloatOps D}
        {conv : FloatConv F D}.

(** [getAverageSpeed()]. *)
Definition getAverageSpeed (fs : FlockingSystem F) : F :=
  match birds fs with
  | [] => of_int 0
  | _ =>
      let total : D :=
        fold_left (fun total b => fadd total (to_double (magnitude (velocity b))))
          (birds fs) (of_int 0) in
      to_float (fdiv total (of_int (Z.of_nat (length (birds fs)))))
  end.

(** The centre computed by the first loop of [getCoherence]. *)
Definition centre (bs : list (Bird F)) : D * D :=
  let n : D := of_int (Z.of_nat (length bs)) in
  let cx := fold_left (fun cx b => fadd cx (to_double (x (position b)))) bs (of_int 0) in
  let cy := fold_left (fun cy b => fadd cy (to_double (y (position b)))) bs (of_int 0) in
  (fdiv cx n, fdiv cy n).

(** [getCoherence()]. *)
Definition getCoherence (fs : FlockingSystem F) : F :=
  let n := length (birds fs) in
  if (n <? 2)%nat then of_int 0
  else
    let c := centre (birds fs) in
    let cx := fst c in
    let cy := snd c in
    let totalDist : D :=
      fold_left
        (fun totalDist b =>
           let dx := fsub (x (position b)) (to_float cx) in
           let dy := fsub (y (position b)) (to_float cy) in
           fadd totalDist (to_double (fsqrt (fadd (fmul dx dx) (fmul dy dy)))))
        (birds fs) (of_int 0) in
    to_float (fdiv totalDist (of_int (Z.of_nat n))).

End FlockingSystem_stats.

(** * More of the program *)

(** ** Filling the flock: [addBoids] and [initializeBirds] *)

Section Population.
Context {F : Type} {ops : FloatOps F}.

(** [RAND_MAX], the successive values [rand()] returns, and the [cos] and
    [sin] of the C library: they are not part of the program. *)
Variable RAND_MAX : Z.
Variable rnd : nat -> Z.
Variables fcos fsin : F -> F.

(** [PI = 3.14159265359f] and [TWO_PI = 2.0f * PI]. *)
Definition PI : F := lit 314159265359 100000000000.
Definition TWO_PI : F := fmul (lit 2 1) PI.

(** [Vector2D::fromAngle(angle)]. *)
Definition fromAngle (angle : F) : Vector2D F := Vec (fcos angle) (fsin angle).

(** [static_cast<float>(rand()) / RAND_MAX], for the draw number [k]. *)
Definition rand_unit (k : nat) : F := fdiv (of_int (rnd k)) (of_int RAND_MAX).

(** The conversion of an [int] to [Uint8]. *)
Definition to_uint8 (z : Z) : Z := (z mod 256)%Z.

(** The constructor [Bird(x, y)] with its four draws, in the order of the
    source: the angle, then red, green and blue.  The result comes with
    the number of the next draw. *)
Definition Bird_ctor (px py : F) (k : nat) : Bird F * nat :=
  let angle := fmul (rand_unit k) TWO_PI in
  let vel := vscale (fromAngle angle) (lit 2 1) in
  let cr := to_uint8 (150 + Z.rem (rnd (k + 1)) 105) in
  let cg := to_uint8 (100 + Z.rem (rnd (k + 2)) 100) in
  let cb := to_uint8 (50 + Z.rem (rnd (k + 3)) 100) in
  (Bird_new px py vel cr cg cb, (k + 4)%nat).

(** [addBoid(x, y)]: [birds.emplace_back(x, y)]. *)
Definition emplace (fs : FlockingSystem F) (px py : F) (k : nat)
    : FlockingSystem F * nat :=
  (mkFlock (birds fs ++ [fst (Bird_ctor px py k)]) (windowWidth fs) (windowHeight fs),
   snd (Bird_ctor px py k)).

(** The loop shared by [addBoids] and [initializeBirds]: two draws for the
    place, then the constructor. *)
Fixpoint populate (n : nat) (fs : FlockingSystem F) (k : nat)
    : FlockingSystem F * nat :=
  match n with
  | O => (fs, k)
  | S n' =>
      let px := fmul (rand_unit k) (of_int (windowWidth fs)) in
      let py := fmul (rand_unit (k + 1)) (of_int (windowHeight fs)) in
      let st := emplace fs px py (k + 2) in
      populate n' (fst st) (snd st)
  end.

(** [addBoids(count)]; a [count] that is not positive adds nothing. *)
Definition addBoids (fs : FlockingSystem F) (count : Z) (k : nat)
    : FlockingSystem F * nat :=
  populate (Z.to_nat count) fs k.

(** [initializeBirds(numBirds)].  [birds.reserve(numBirds)] of a negative
    [int], converted to [size_t], is beyond [max_size()]: it throws
    [std::length_error], [None]. *)
Definition initializeBirds (fs : FlockingSystem F) (numBirds : Z) (k : nat)
    : option (FlockingSystem F * nat) :=
  if (numBirds <? 0)%Z then None
  else Some (populate (Z.to_nat numBirds)
               (mkFlock [] (windowWidth fs) (windowHeight fs)) k).

End Population.

(** * The companion character: [class Cat] *)

(** The comparison [<=] of two [float]s ([a >= b] is [b <= a]), which the
    flocking kernel does not use. *)
Class FloatLe (F : Type) : Type := { fleb : F -> F -> bool }.

#[global] Instance float_le : FloatLe IEEE.float :=
  {| fleb := fun a b => SFleb (IEEE.f32 a) (IEEE.f32 b) |}.

Definition Rleb (a b : R) : bool := if Rle_dec a b then true else false.

#[global] Instance R_le : FloatLe R := {| fleb := Rleb |}.

Definition INT_MIN : Z := (- 2 ^ 31)%Z.

(** An [int] operation whose result leaves the range of [int] has no
    defined behaviour: [None]. *)
Definition checked (z : Z) : option Z :=
  if ((INT_MIN <=? z) && (z <=? INT_MAX))%Z then Some z else None.

Module Cat.

(** [enum class CatState]. *)
Inductive CatState : Type := IdleBack | WalkLeft | WalkRight | WalkUp.

(** [struct Strip]; [tex] records whether the texture pointer is set. *)
Record Strip (F : Type) : Type := mkStrip {
  tex : bool;
  texW : Z; texH : Z;
  fw : Z; fh : Z;
  frames : Z;
  frameDur : F;
  marginX : Z; marginY : Z;
  spacingX : Z
}.
Arguments mkStrip {F}.
Arguments tex {F} _.
Arguments texW {F} _.
Arguments texH {F} _.
Arguments fw {F} _.
Arguments fh {F} _.
Arguments frames {F} _.
Arguments frameDur {F} _.
Arguments marginX {F} _.
Arguments marginY {F} _.
Arguments spacingX {F} _.

(** [class Cat]; the position is [cat_x], [cat_y], and the [std::map]
    [strips] is the partial function it represents. *)
Record Cat (F : Type) : Type := mkCat {
  cat_x : F; cat_y : F;
  scale : F;
  speed : F;
  arriveEps : F;
  state : CatState;
  frame : Z;
  tAcc : F;
  moving : bool;
  tx : F; ty : F;
  strips : CatState -> option (Strip F)
}.
Arguments mkCat {F}.
Arguments cat_x {F} _.
Arguments cat_y {F} _.
Arguments scale {F} _.
Arguments speed {F} _.
Arguments arriveEps {F} _.
Arguments state {F} _.
Arguments frame {F} _.
Arguments tAcc {F} _.
Arguments moving {F} _.
Arguments tx {F} _.
Arguments ty {F} _.
Arguments strips {F} _.

Section Cat_ops.
Context {F : Type} {ops : FloatOps F} {le : FloatLe F}.

(** A default-constructed [Strip], the [static Strip dummy] of [cur()]. *)
Definition dummy : Strip F := mkStrip false 0 0 31 36 (-1) (lit 5 100) 0 0 0.

(** [cur()]. *)
Definition cur (c : Cat F) : Strip F :=
  let idle :=
    match strips c IdleBack with
    | Some s => s
    | None => dummy
    end in
  match strips c (state c) with
  | Some s => if tex s then s else idle
  | None => idle
  end.

(** [frameCount(s)]; the division by [s.fw + s.spacingX == 0] has no
    defined behaviour either. *)
Definition frameCount (s : Strip F) : option Z :=
  if (frames s >? 0)%Z then Some (frames s)
  else
    match checked (texW s - marginX s) with
    | None => None
    | Some usableW =>
        match checked (usableW + spacingX s), checked (fw s + spacingX s) with
        | Some num, Some den =>
            if (den =? 0)%Z then None
            else
              let perRow := Z.quot (Z.max 0 num) den in
              Some (Z.max 1 perRow)
        | _, _ => None
        end
    end.

Definition set_pos (c : Cat F) (px py : F) : Cat F :=
  mkCat px py (scale c) (speed c) (arriveEps c) (state c) (frame c) (tAcc c)
    (moving c) (tx c) (ty c) (strips c).
Definition set_state (c : Cat F) (st : CatState) : Cat F :=
  mkCat (cat_x c) (cat_y c) (scale c) (speed c) (arriveEps c) st (frame c) (tAcc c)
    (moving c) (tx c) (ty c) (strips c).
Definition set_anim (c : Cat F) (fr : Z) (t : F) : Cat F :=
  mkCat (cat_x c) (cat_y c) (scale c) (speed c) (arriveEps c) (state c) fr t
    (moving c) (tx c) (ty c) (strips c).
Definition set_moving (c : Cat F) (m : bool) : Cat F :=
  mkCat (cat_x c) (cat_y c) (scale c) (speed c) (arriveEps c) (state c) (frame c)
    (tAcc c) m (tx c) (ty c) (strips c).
Definition set_target (c : Cat F) (px py : F) : Cat F :=
  mkCat (cat_x c) (cat_y c) (scale c) (speed c) (arriveEps c) (state c) (frame c)
    (tAcc c) (moving c) px py (strips c).

(** [placeAtBottom(W, H)]. *)
Definition placeAtBottom (c : Cat F) (W H : Z) : Cat F :=
  let s := cur c in
  set_pos c (cat_x c)
    (fsub (fsub (of_int H) (fmul (of_int (fh s)) (scale c))) (lit 20 1)).

(** [pickWalkState()]. *)
Definition pickWalkState (c : Cat F) : Cat F :=
  let s := cur c in
  let cx := fadd (cat_x c) (fmul (fmul (of_int (fw s)) (scale c)) (lit 5 10)) in
  let cy := fadd (cat_y c) (fmul (fmul (of_int (fh s)) (scale c)) (lit 5 10)) in
  let dx := fsub (tx c) cx in
  let dy := fsub (ty c) cy in
  if fgtb (fabs dx) (fabs dy) then
    set_state c (if fltb dx (of_int 0) then WalkLeft else WalkRight)
  else set_state c WalkUp.

(** [goTo(px, py)]; [py] is not used. *)
Definition goTo (c : Cat F) (px py : F) : Cat F :=
  let c := set_target c px (ty c) in
  let s := cur c in
  let c :=
    set_target c (tx c)
      (fadd (cat_y c) (fmul (fmul (of_int (fh s)) (scale c)) (lit 5 10))) in
  let c := set_moving c true in
  let c := pickWalkState c in
  set_anim c 0 (of_int 0).

(** The loop [while (tAcc >= frameDur)] of [update]; [fuel] bounds the
    number of iterations and [None] is a loop that has not ended within
    it, or a step without defined behaviour. *)
Fixpoint animate (fuel : nat) (t : F) (fr : Z) (dur : F) (fcount : Z)
    : option (F * Z) :=
  if fleb dur t then
    match fuel with
    | O => None
    | S fuel' =>
        match checked (fr + 1) with
        | None => None
        | Some fr1 => animate fuel' (fsub t dur) (Z.rem fr1 fcount) dur fcount
        end
    end
  else Some (t, fr).

(** The first half of [update(dt)]: the walk towards the target. *)
Definition walk (c : Cat F) (dt : F) : Cat F :=
  let s := cur c in
  if moving c then
    let cx := fadd (cat_x c) (fmul (fmul (of_int (fw s)) (scale c)) (lit 5 10)) in
    let cy := fadd (cat_y c) (fmul (fmul (of_int (fh s)) (scale c)) (lit 5 10)) in
    let dx := fsub (tx c) cx in
    let dy := fsub (ty c) cy in
    let d := fsqrt (fadd (fmul dx dx) (fmul dy dy)) in
    if fleb d (arriveEps c) then
      set_anim (set_state (set_moving c false) IdleBack) 0 (of_int 0)
    else if fgtb d (lit 1 10000) then
      let vx := fmul (fdiv dx d) (speed c) in
      let vy := fmul (fdiv dy d) (speed c) in
      set_pos c (fadd (cat_x c) (fmul vx dt)) (fadd (cat_y c) (fmul vy dt))
    else c
  else set_state c IdleBack.

(** [Cat::update(dt)], named apart from [Bird::update]. *)
Definition cat_update (fuel : nat) (c : Cat F) (dt : F) : option (Cat F) :=
  let c := walk c dt in
  let s2 := cur c in
  match frameCount s2 with
  | None => None
  | Some fcount =>
      let t := fadd (tAcc c) dt in
      match animate fuel t (frame c) (frameDur s2) fcount with
      | None => None
      | Some (t', fr') => Some (set_anim c fr' t')
      end
  end.

(** [clampToWindow(W, H)]. *)
Definition clampToWindow (c : Cat F) (W H : Z) : Cat F :=
  let s := cur c in
  let dw := fmul (of_int (fw s)) (scale c) in
  let dh := fmul (of_int (fh s)) (scale c) in
  let c := if fltb (cat_x c) (of_int 0) then set_pos c (of_int 0) (cat_y c) else c in
  let c := if fltb (cat_y c) (of_int 0) then set_pos c (cat_x c) (of_int 0) else c in
  let c :=
    if fgtb (fadd (cat_x c) dw) (of_int W)
    then set_pos c (fsub (of_int W) dw) (cat_y c) else c in
  if fgtb (fadd (cat_y c) dh) (of_int H)
  then set_pos c (cat_x c) (fsub (of_int H) dh) else c.

End Cat_ops.

End Cat.

(** * The background gradient: [u8lerp] and [mix] *)

Module Gradient.
Import IEEE.

(** The conversion of a [float] to [Uint8]: the value truncated towards
    zero; it has no defined behaviour ([None]) when the truncated value is
    not in [[0, 255]], or for NaN and the infinities. *)
Definition truncate (v : spec_float) : option Z :=
  match v with
  | S754_zero _ => Some 0%Z
  | S754_finite s m e =>
      Some (cond_Zopp s (match e with
                         | Zneg p => Z.quot (Zpos m) (2 ^ Zpos p)
                         | _ => (Zpos m * 2 ^ e)%Z
                         end))
  | _ => None
  end.

Definition Uint8_of_float (v : float) : option Z :=
  match truncate (f32 v) with
  | Some z => if ((0 <=? z) && (z <=? 255))%Z then Some z else None
  | None => None
  end.

(** [u8lerp(a, b, t)]: [(Uint8)(a + (b - a) * t)], the subtraction in
    [int], the product and the sum in [float]. *)
Definition u8lerp (a b : Z) (t : float) : option Z :=
  Uint8_of_float (fadd (of_int a) (fmul (of_int (b - a)) t)).

(** [struct RGBA] and [mix(a, b, t)]. *)
Record RGBA : Type := mkRGBA { cr : Z; cg : Z; cb : Z; ca : Z }.

Definition mix (a b : RGBA) (t : float) : option RGBA :=
  match u8lerp (cr a) (cr b) t, u8lerp (cg a) (cg b) t,
        u8lerp (cb a) (cb b) t, u8lerp (ca a) (ca b) t with
  | Some r', Some g', Some b', Some a' => Some (mkRGBA r' g' b' a')
  | _, _, _, _ => None
  end.

End Gradient.

(** * Properties *)

(** ** [Vector2D]: [normalized()] and [normalize()] *)

(** C4.  [normalized()] never returns: whatever depth of call stack is
    allowed and whatever the vector, the call runs out of it.  The copy it
    was to return is never scaled. *)
Theorem normalized_never_returns :
  forall (F : Type) (fuel : nat) (a : Vector2D F), normalized fuel a = None.
Proof.
  intros F fuel; induction fuel as [|fuel IH]; intros a; simpl.
  - reflexivity.
  - now rewrite IH.
Qed.

Section Generic_facts.
Context {F : Type} {ops : FloatOps F}.

Lemma normalize_guard (a : Vector2D F) :
  fgtb (magnitude a) fzero = false -> normalize a = a.
Proof. unfold normalize; intros ->; reflexivity. Qed.

Lemma limit_within (a : Vector2D F) (maxMag : F) :
  fgtb (magnitude a) maxMag = false -> limit a maxMag = a.
Proof. unfold limit; intros ->; reflexivity. Qed.

(** A neighbour loop whose test fails on every element leaves its state. *)
Lemma fold_left_skip (A S : Type) (step : S -> A -> S) (l : list A) (s : S) :
  (forall a, In a l -> step s a = s) -> fold_left step l s = s.
Proof.
  induction l as [|a l IH]; intros Hs; simpl.
  - reflexivity.
  - rewrite (Hs a (or_introl eq_refl)). apply IH.
    intros a' Ha'. apply Hs. now right.
Qed.

Lemma separate_step_out (b other : Bird F) (st : Vector2D F * Z) :
  in_range b other (separationRadius b) = false -> separate_step b st other = st.
Proof. unfold in_range, separate_step; intros ->; reflexivity. Qed.

Lemma align_step_out (b other : Bird F) (st : Vector2D F * Z) :
  in_range b other (alignmentRadius b) = false -> align_step b st other = st.
Proof. unfold in_range, align_step; intros ->; reflexivity. Qed.

Lemma cohesion_step_out (b other : Bird F) (st : Vector2D F * Z) :
  in_range b other (cohesionRadius b) = false -> cohesion_step b st other = st.
Proof. unfold in_range, cohesion_step; intros ->; reflexivity. Qed.

End Generic_facts.

(** C6.  In any arithmetic: when the test [d > 0 && d < radius] fails for
    every bird of the vector, [separate], [align] and [cohesion] return the
    zero vector. *)
Theorem no_contributor_zero_steering :
  forall (F : Type) (ops : FloatOps F) (b : Bird F) (bs : list (Bird F)),
    ((forall other, In other bs -> in_range b other (separationRadius b) = false) ->
     separate b bs = vzero) /\
    ((forall other, In other bs -> in_range b other (alignmentRadius b) = false) ->
     align b bs = vzero) /\
    ((forall other, In other bs -> in_range b other (cohesionRadius b) = false) ->
     cohesion b bs = vzero).
Proof.
  intros F ops b bs; repeat split; intros Hout.
  - unfold separate.
    rewrite fold_left_skip by (intros; now apply separate_step_out, Hout).
    reflexivity.
  - unfold align.
    rewrite fold_left_skip by (intros; now apply align_step_out, Hout).
    reflexivity.
  - unfold cohesion.
    rewrite fold_left_skip by (intros; now apply cohesion_step_out, Hout).
    reflexivity.
Qed.

(** ** Facts of binary32 arithmetic *)

Module IEEE_facts.
Import IEEE.

(** [v - v] is [+0] for a finite [v] and NaN otherwise. *)
Lemma SFsub_diag (v : spec_float) :
  SFsub 24 128 v v = S754_zero false \/ SFsub 24 128 v v = S754_nan.
Proof.
  destruct v as [s|s| |s m e]; simpl.
  - left; now destruct s.
  - right; now destruct s.
  - now right.
  - left. now rewrite Z.sub_diag.
Qed.

(** The distance of a position to itself is never [> 0]: it is [+0], or
    NaN when a coordinate is not finite. *)
Lemma distance_self_not_positive (p : Vector2D float) :
  fgtb (distance p p) fzero = false.
Proof.
  destruct p as [[a] [b]].
  unfold distance, magnitude, vsub, fgtb; simpl.
  unfold lift32_2; simpl.
  destruct (SFsub_diag a) as [-> | ->], (SFsub_diag b) as [-> | ->];
    reflexivity.
Qed.

(** A bird is never its own neighbour, whatever its state. *)
Lemma in_range_self_binary32 (b : Bird float) (radius : float) :
  in_range b b radius = false.
Proof.
  unfold in_range. now rewrite distance_self_not_positive.
Qed.

End IEEE_facts.

(** C7.  [normalize()] leaves a zero vector as it is, in binary32 for the
    four zero vectors [(+-0, +-0)] and in exact arithmetic for [(0, 0)]:
    the magnitude is zero, the test [mag > 0] fails and no division takes
    place, so no infinity and no NaN is produced. *)
Theorem normalize_zero_noop :
  (forall s1 s2 : bool,
     let zero := Vec (IEEE.F32 (S754_zero s1)) (IEEE.F32 (S754_zero s2)) in
     normalize zero = zero) /\
  normalize (Vec 0%R 0%R) = Vec 0%R 0%R.
Proof.
  split.
  - intros [|] [|]; reflexivity.
  - apply normalize_guard.
    unfold fgtb, magnitude, fzero; simpl. unfold Exact.Rltb.
    replace (0 * 0 + 0 * 0)%R with 0%R by ring. rewrite sqrt_0.
    destruct (Rlt_dec 0 0) as [H|H]; [exfalso; lra | reflexivity].
Qed.

(** ** [FlockingSystem::removeBoids] *)

Lemma int_of_size_t_small (n : nat) :
  (Z.of_nat n <= INT_MAX)%Z -> int_of_size_t n = Z.of_nat n.
Proof.
  unfold int_of_size_t, INT_MAX; intros Hn.
  rewrite Z.mod_small; lia.
Qed.

(** C8.  For a flock whose size fits an [int] and a count [n >= 0]:
    [removeBoids(n)] empties the flock when [n >= size()]; otherwise it
    keeps [size() - n] birds, which are the flock without its last [n]
    birds, in the same order. *)
Theorem removeBoids_drops_tail :
  forall (F : Type) (fs : FlockingSystem F) (n : Z),
    (0 <= n)%Z ->
    (Z.of_nat (length (birds fs)) <= INT_MAX)%Z ->
    ((Z.of_nat (length (birds fs)) <= n)%Z ->
     removeBoids fs n = Some (mkFlock [] (windowWidth fs) (windowHeight fs))) /\
    ((n < Z.of_nat (length (birds fs)))%Z ->
     exists (fs' : FlockingSystem F) (dropped : list (Bird F)),
       removeBoids fs n = Some fs' /\
       birds fs = birds fs' ++ dropped /\
       length dropped = Z.to_nat n /\
       length (birds fs') = (length (birds fs) - Z.to_nat n)%nat /\
       birds fs' = firstn (length (birds fs) - Z.to_nat n) (birds fs) /\
       windowWidth fs' = windowWidth fs /\ windowHeight fs' = windowHeight fs).
Proof.
  intros F fs n Hn Hsize; unfold removeBoids.
  rewrite (int_of_size_t_small _ Hsize). split; intros Hcmp.
  - destruct (Z.geb_spec n (Z.of_nat (length (birds fs)))); [reflexivity | lia].
  - destruct (Z.geb_spec n (Z.of_nat (length (birds fs)))); [lia|].
    destruct (Z.ltb_spec n 0); [lia|].
    eexists; exists (skipn (length (birds fs) - Z.to_nat n) (birds fs)).
    split; [reflexivity|]; simpl.
    repeat split.
    + symmetry; apply firstn_skipn.
    + rewrite length_skipn. lia.
    + rewrite length_firstn. lia.
Qed.

(** ** Facts of exact arithmetic *)

Module Exact_facts.
Import Exact.
Local Open Scope R_scope.

Lemma Rltb_true (a b : R) : Rltb a b = true <-> a < b.
Proof. unfold Rltb; destruct (Rlt_dec a b); split; intros; (easy || lra). Qed.

Lemma Rltb_false (a b : R) : Rltb a b = false <-> b <= a.
Proof. unfold Rltb; destruct (Rlt_dec a b); split; intros; (easy || lra). Qed.

Lemma magnitude_eq (a b : R) : magnitude (Vec a b) = sqrt (a * a + b * b).
Proof. reflexivity. Qed.

Lemma sum_squares_nonneg (a b : R) : 0 <= a * a + b * b.
Proof. nra. Qed.

Lemma magnitude_nonneg (v : Vector2D R) : 0 <= magnitude v.
Proof. destruct v; rewrite magnitude_eq; apply sqrt_pos. Qed.

Lemma magnitude_zero : magnitude (Vec 0 0) = 0.
Proof.
  rewrite magnitude_eq. replace (0 * 0 + 0 * 0) with 0 by ring. apply sqrt_0.
Qed.

Lemma normalize_positive (v : Vector2D R) :
  0 < magnitude v ->
  normalize v = Vec (x v / magnitude v) (y v / magnitude v).
Proof.
  intros Hpos; unfold normalize, fgtb.
  change (fltb fzero (magnitude v)) with (Rltb 0 (magnitude v)).
  apply Rltb_true in Hpos. now rewrite Hpos.
Qed.

Lemma normalize_null (v : Vector2D R) : magnitude v <= 0 -> normalize v = v.
Proof.
  intros Hle; apply normalize_guard; unfold fgtb.
  change (fltb fzero (magnitude v)) with (Rltb 0 (magnitude v)).
  now apply Rltb_false.
Qed.

(** Scaling a vector changes its magnitude by the absolute value. *)
Lemma magnitude_vscale (v : Vector2D R) (s : R) :
  magnitude (vscale v s) = magnitude v * Rabs s.
Proof.
  destruct v as [a b]; unfold vscale; simpl x; simpl y.
  rewrite !magnitude_eq; simpl.
  replace (a * s * (a * s) + b * s * (b * s)) with ((a * a + b * b) * (s * s)) by ring.
  rewrite sqrt_mult_alt by apply sum_squares_nonneg.
  f_equal. replace (s * s) with (s²) by reflexivity. apply sqrt_Rsqr_abs.
Qed.

(** [normalize()] yields a unit vector when the magnitude is positive. *)
Lemma magnitude_normalize (v : Vector2D R) :
  0 < magnitude v -> magnitude (normalize v) = 1.
Proof.
  intros Hpos. rewrite (normalize_positive _ Hpos).
  destruct v as [a b]; simpl x; simpl y.
  rewrite !magnitude_eq. rewrite magnitude_eq in Hpos.
  set (M := sqrt (a * a + b * b)) in *.
  assert (HM : M * M = a * a + b * b)
    by (apply sqrt_sqrt, sum_squares_nonneg).
  clearbody M.
  replace (a / M * (a / M) + b / M * (b / M)) with ((a * a + b * b) / (M * M))
    by (field; lra).
  rewrite <- HM, Rdiv_diag by (apply Rmult_integral_contrapositive_currified; lra).
  apply sqrt_1.
Qed.

(** [limit(maxMag)] with [maxMag >= 0] bounds the magnitude. *)
Lemma magnitude_limit (v : Vector2D R) (maxMag : R) :
  0 <= maxMag -> magnitude (limit v maxMag) <= maxMag.
Proof.
  intros Hm; unfold limit, fgtb.
  change (fltb maxMag (magnitude v)) with (Rltb maxMag (magnitude v)).
  destruct (Rltb maxMag (magnitude v)) eqn:Hcmp.
  - apply Rltb_true in Hcmp.
    rewrite magnitude_vscale, magnitude_normalize by lra.
    rewrite Rabs_pos_eq by assumption. lra.
  - now apply Rltb_false in Hcmp.
Qed.

End Exact_facts.

(** ** [Bird::update] *)

Module Update_facts.
Import Exact Exact_facts.
Local Open Scope R_scope.

(** The velocity [update()] leaves, coordinate by coordinate: the sum
    [w = velocity + acceleration] when its length [m] is within [cap], and
    [w / m * cap] when it is longer. *)
Lemma update_velocity (b : Bird R) :
  let wx := x (velocity b) + x (acceleration b) in
  let wy := y (velocity b) + y (acceleration b) in
  let m := sqrt (wx * wx + wy * wy) in
  (m <= maxSpeed b -> velocity (update b) = Vec wx wy) /\
  (0 <= maxSpeed b -> maxSpeed b < m ->
   velocity (update b) = Vec (wx / m * maxSpeed b) (wy / m * maxSpeed b)).
Proof.
  intros wx wy m.
  assert (Hv : velocity (update b) = limit (Vec wx wy) (maxSpeed b)) by reflexivity.
  rewrite Hv. unfold limit, fgtb.
  change (fltb (maxSpeed b) (magnitude (Vec wx wy))) with (Rltb (maxSpeed b) m).
  split.
  - intros Hle. apply Rltb_false in Hle. now rewrite Hle.
  - intros Hcap Hlt. apply Rltb_true in Hlt as Hb. rewrite Hb.
    rewrite normalize_positive by (rewrite magnitude_eq; fold m; lra).
    reflexivity.
Qed.

Lemma update_position (b : Bird R) :
  position (update b) =
  Vec (x (position b) + x (velocity (update b)))
      (y (position b) + y (velocity (update b))).
Proof. reflexivity. Qed.

Lemma update_acceleration (b : Bird R) : acceleration (update b) = Vec 0 0.
Proof. unfold update; simpl. unfold vscale; simpl. now rewrite !Rmult_0_r. Qed.

Lemma update_speed (b : Bird R) :
  0 <= maxSpeed b ->
  let vx' := x (velocity (update b)) in
  let vy' := y (velocity (update b)) in
  sqrt (vx' * vx' + vy' * vy') <= maxSpeed b.
Proof.
  intros Hcap vx' vy'.
  change (sqrt (vx' * vx' + vy' * vy')) with (magnitude (velocity (update b))).
  unfold update; simpl. now apply magnitude_limit.
Qed.

Lemma update_full_speed (b : Bird R) :
  0 <= maxSpeed b ->
  maxSpeed b < magnitude (vadd (velocity b) (acceleration b)) ->
  let vx' := x (velocity (update b)) in
  let vy' := y (velocity (update b)) in
  sqrt (vx' * vx' + vy' * vy') = maxSpeed b.
Proof.
  intros Hcap Hlt vx' vy'.
  change (sqrt (vx' * vx' + vy' * vy')) with (magnitude (velocity (update b))).
  change (velocity (update b))
    with (limit (vadd (velocity b) (acceleration b)) (maxSpeed b)).
  unfold limit, fgtb.
  change (fltb (maxSpeed b) ?u) with (Rltb (maxSpeed b) u).
  apply Rltb_true in Hlt as Hb. rewrite Hb.
  rewrite magnitude_vscale, magnitude_normalize by lra.
  rewrite Rabs_pos_eq by assumption. ring.
Qed.

End Update_facts.

(** C3.  Exact arithmetic, a bird whose [maxSpeed] is not negative.  With
    [w = velocity + acceleration] and [m] the length of [w], [update()]
    leaves the velocity [w] when [m <= maxSpeed] and [w / m * maxSpeed], of
    length exactly [maxSpeed], when [m > maxSpeed]; so its length is at
    most [maxSpeed].  The new position is the old one plus the new
    velocity, the acceleration is the zero vector, and nothing else
    changes.  In binary32, a bird at [(10, 20)] with velocity [(2, 0)] and
    acceleration [(1, 4)] ends with velocity [(1.2f, 1.6f)], position
    [(11.2f, 21.6f)] and acceleration [(0, 0)]. *)
Theorem update_integrates_and_caps :
  (forall b : Bird R,
     (0 <= maxSpeed b)%R ->
     let wx := (x (velocity b) + x (acceleration b))%R in
     let wy := (y (velocity b) + y (acceleration b))%R in
     let m := sqrt (wx * wx + wy * wy) in
     let vx' := x (velocity (update b)) in
     let vy' := y (velocity (update b)) in
     ((m <= maxSpeed b)%R -> vx' = wx /\ vy' = wy) /\
     ((maxSpeed b < m)%R ->
      vx' = (wx / m * maxSpeed b)%R /\ vy' = (wy / m * maxSpeed b)%R /\
      sqrt (vx' * vx' + vy' * vy') = maxSpeed b) /\
     (sqrt (vx' * vx' + vy' * vy') <= maxSpeed b)%R /\
     x (position (update b)) = (x (position b) + vx')%R /\
     y (position (update b)) = (y (position b) + vy')%R /\
     acceleration (update b) = Vec 0%R 0%R /\
     set_position
       (set_velocity (set_acceleration (update b) (acceleration b)) (velocity b))
       (position b) = b) /\
  (let b : Bird IEEE.float :=
     set_acceleration
       (Bird_new (of_int 10) (of_int 20) (Vec (of_int 2) (of_int 0)) 200 150 100)
       (Vec (of_int 1) (of_int 4)) in
   velocity (update b) = Vec (lit 12 10) (lit 16 10) /\
   position (update b) = Vec (lit 112 10) (lit 216 10) /\
   acceleration (update b) = Vec (of_int 0) (of_int 0)).
Proof.
  split.
  - intros b Hcap wx wy m vx' vy'.
    destruct (Update_facts.update_velocity b) as [Hin Hout].
    fold wx wy m in Hin, Hout.
    split; [|split; [|split; [|split; [|split; [|split]]]]].
    + intros Hle. unfold vx', vy'. rewrite (Hin Hle). split; reflexivity.
    + intros Hlt. unfold vx', vy'. split; [|split].
      * rewrite (Hout Hcap Hlt). reflexivity.
      * rewrite (Hout Hcap Hlt). reflexivity.
      * now apply Update_facts.update_full_speed.
    + now apply Update_facts.update_speed.
    + unfold vx'. now rewrite Update_facts.update_position.
    + unfold vy'. now rewrite Update_facts.update_position.
    + apply Update_facts.update_acceleration.
    + destruct b; reflexivity.
  - vm_compute. repeat split; reflexivity.
Qed.

(** ** [Bird::borders] *)

(** C5.  Exact arithmetic, a bird of radius [r >= 0] in a viewport of
    non-negative dimensions.  A coordinate beyond a bound by more than [r]
    moves to the opposite edge: past [width + r] it becomes [-r] (so does
    [x = width + r + 1]), below [-r] it becomes [width + r], and likewise
    for [y] and [height].  A coordinate within [[-r, bound + r]] is kept.
    Nothing but the position changes. *)
Theorem borders_wraps :
  forall (b : Bird R) (width height : Z),
    (0 <= r b)%R -> (0 <= width)%Z -> (0 <= height)%Z ->
    let b' := borders b width height in
    let px := x (position b) in
    let py := y (position b) in
    ((IZR width + r b < px)%R -> x (position b') = (- r b)%R) /\
    ((px < - r b)%R -> x (position b') = (IZR width + r b)%R) /\
    ((IZR height + r b < py)%R -> y (position b') = (- r b)%R) /\
    ((py < - r b)%R -> y (position b') = (IZR height + r b)%R) /\
    ((- r b <= px <= IZR width + r b)%R -> x (position b') = px) /\
    ((- r b <= py <= IZR height + r b)%R -> y (position b') = py) /\
    (px = (IZR width + r b + 1)%R -> x (position b') = (- r b)%R) /\
    set_position b' (position b) = b.
Proof.
  intros b width height Hr Hw Hh.
  apply IZR_le in Hw, Hh.
  destruct b as [[px py] v a rad ms mf sr ar cr cr_ cg cb ca]; simpl in *.
  unfold borders, fgtb, set_position; simpl. unfold Exact.Rltb.
  repeat match goal with
         | |- context [Rlt_dec ?u ?w] => destruct (Rlt_dec u w); simpl in *
         end;
    repeat split; intros; try reflexivity; lra.
Qed.

(** ** [Bird::seek] *)

Module Seek_facts.
Import Exact Exact_facts.
Local Open Scope R_scope.

Lemma magnitude_null_inv (a b : R) : magnitude (Vec a b) <= 0 -> a = 0 /\ b = 0.
Proof.
  rewrite magnitude_eq; intros Hle.
  assert (Hs : sqrt (a * a + b * b) = 0)
    by (apply Rle_antisym; [assumption | apply sqrt_pos]).
  apply sqrt_eq_0 in Hs; [| apply sum_squares_nonneg]. split; nra.
Qed.

Lemma magnitude_positive (v : Vector2D R) : v <> Vec 0 0 -> 0 < magnitude v.
Proof.
  intros Hv. destruct (Rlt_le_dec 0 (magnitude v)) as [H|H]; [assumption|].
  destruct v as [a b]. destruct (magnitude_null_inv _ _ H) as [-> ->].
  now elim Hv.
Qed.


(** The desired velocity of [seek]. *)
Definition desired (b : Bird R) (target : Vector2D R) : Vector2D R :=
  vscale (normalize (vsub target (position b))) (maxSpeed b).

Lemma vsub_diag (p : Vector2D R) : vsub p p = Vec 0 0.
Proof. destruct p as [a b]; unfold vsub; simpl. f_equal; ring. Qed.

Lemma vsub_eq_inv (p q : Vector2D R) : vsub p q = Vec 0 0 -> p = q.
Proof.
  destruct p as [a b], q as [c d]; unfold vsub; simpl.
  intros [= Ha Hb]. f_equal; lra.
Qed.






End Seek_facts.




(** ** [FlockingSystem::getCoherence] *)

Module Coherence_spec.
Local Open Scope R_scope.

(** The specification's words: the mean, over the agents, of the
    Euclidean distance to the flock's centroid. *)
Definition Rsum (l : list R) : R := fold_right Rplus 0 l.
Definition mean (l : list R) : R := Rsum l / INR (length l).
Definition centroid (bs : list (Bird R)) : Vector2D R :=
  Vec (mean (map (fun b => x (position b)) bs))
      (mean (map (fun b => y (position b)) bs)).
Definition mean_distance_to_centroid (bs : list (Bird R)) : R :=
  mean (map (fun b => distance (position b) (centroid bs)) bs).

(** A [double] accumulator over a loop is the sum of the terms. *)
Lemma fold_left_Rsum (A : Type) (f : A -> R) (l : list A) (a : R) :
  fold_left (fun acc b => acc + f b) l a = a + Rsum (map f l).
Proof.
  revert a; induction l as [|b l IH]; intros a; simpl.
  - ring.
  - rewrite IH. ring.
Qed.

Lemma centre_centroid (bs : list (Bird R)) :
  centre (D:=R) bs = (x (centroid bs), y (centroid bs)).
Proof.
  unfold centre, centroid, mean; simpl.
  rewrite (fold_left_Rsum (fun b => x (position b))).
  rewrite (fold_left_Rsum (fun b => y (position b))).
  rewrite !length_map, !INR_IZR_INZ, !Rplus_0_l. reflexivity.
Qed.

Lemma getCoherence_mean (fs : FlockingSystem R) :
  (2 <= length (birds fs))%nat ->
  getCoherence (D:=R) fs = mean_distance_to_centroid (birds fs).
Proof.
  intros Hn. unfold getCoherence.
  destruct (Nat.ltb_spec (length (birds fs)) 2) as [Hlt|_]; [lia|].
  rewrite centre_centroid; simpl.
  rewrite (fold_left_Rsum
             (fun b => sqrt ((x (position b) - x (centroid (birds fs))) *
                             (x (position b) - x (centroid (birds fs))) +
                             (y (position b) - y (centroid (birds fs))) *
                             (y (position b) - y (centroid (birds fs)))))).
  unfold mean_distance_to_centroid, mean.
  rewrite length_map, INR_IZR_INZ, Rplus_0_l. reflexivity.
Qed.

End Coherence_spec.

(** C9.  In any arithmetic [getCoherence()] is [0] for fewer than two
    birds.  In exact arithmetic, for two birds or more, it is the mean of
    the distances of the birds to the centroid of the flock.  For two birds
    at [(0, 0)] and [(10, 0)] it is [5], in exact arithmetic and, exactly,
    in binary32 with [double] accumulators. *)
Theorem getCoherence_mean_distance :
  (forall (F D : Type) (ops : FloatOps F) (dops : FloatOps D)
          (conv : FloatConv F D) (fs : FlockingSystem F),
     (length (birds fs) < 2)%nat -> getCoherence (D:=D) fs = of_int 0) /\
  (forall fs : FlockingSystem R,
     (2 <= length (birds fs))%nat ->
     getCoherence (D:=R) fs = Coherence_spec.mean_distance_to_centroid (birds fs)) /\
  (forall (b1 b2 : Bird R) (w h : Z),
     position b1 = Vec 0%R 0%R -> position b2 = Vec 10%R 0%R ->
     getCoherence (D:=R) (mkFlock [b1; b2] w h) = 5%R) /\
  (forall (b1 b2 : Bird IEEE.float) (w h : Z),
     position b1 = Vec (of_int 0) (of_int 0) ->
     position b2 = Vec (of_int 10) (of_int 0) ->
     getCoherence (D:=IEEE.double) (mkFlock [b1; b2] w h) = of_int 5).
Proof.
  split; [|split; [|split]].
  - intros F D ops dops conv fs Hlt. unfold getCoherence.
    destruct (Nat.ltb_spec (length (birds fs)) 2); [reflexivity | lia].
  - apply Coherence_spec.getCoherence_mean.
  - intros b1 b2 w h H1 H2.
    unfold getCoherence, centre; simpl. rewrite H1, H2; simpl.
    replace ((0 + 0 + 10) / 2)%R with 5%R by field.
    replace ((0 + 0 + 0) / 2)%R with 0%R by field.
    replace ((0 - 5) * (0 - 5) + (0 - 0) * (0 - 0))%R with (5 * 5)%R by ring.
    replace ((10 - 5) * (10 - 5) + (0 - 0) * (0 - 0))%R with (5 * 5)%R by ring.
    rewrite sqrt_square by lra. field.
  - intros b1 b2 w h H1 H2.
    unfold getCoherence, centre; simpl. rewrite H1, H2. vm_compute. reflexivity.
Qed.

(** ** The two passes of [updateSerial] *)

Section Serial_pass.
Context {F : Type} {ops : FloatOps F}.

(** What the rules read of another bird: its position and its velocity. *)
Definition kinematics (b : Bird F) : Vector2D F * Vector2D F :=
  (position b, velocity b).

Lemma fold_left_same_view (A S V : Type) (view : A -> V) (step : S -> A -> S) :
  (forall st a a', view a = view a' -> step st a = step st a') ->
  forall (l l' : list A) (st : S),
    map view l = map view l' -> fold_left step l st = fold_left step l' st.
Proof.
  intros Hstep l; induction l as [|a l IH]; intros [|a' l'] st Hmap;
    simpl in *; try discriminate; [reflexivity|].
  injection Hmap as Ha Hl. rewrite (Hstep st a a' Ha). now apply IH.
Qed.

Lemma separate_step_view (b : Bird F) st (o o' : Bird F) :
  kinematics o = kinematics o' -> separate_step b st o = separate_step b st o'.
Proof. unfold kinematics, separate_step; intros [= -> _]; reflexivity. Qed.

Lemma align_step_view (b : Bird F) st (o o' : Bird F) :
  kinematics o = kinematics o' -> align_step b st o = align_step b st o'.
Proof. unfold kinematics, align_step; intros [= -> ->]; reflexivity. Qed.

Lemma cohesion_step_view (b : Bird F) st (o o' : Bird F) :
  kinematics o = kinematics o' -> cohesion_step b st o = cohesion_step b st o'.
Proof. unfold kinematics, cohesion_step; intros [= -> _]; reflexivity. Qed.

(** [flock] reads the positions and velocities of the vector only. *)
Lemma flock_same_view (b : Bird F) (l l' : list (Bird F)) (w h : Z) :
  map kinematics l = map kinematics l' -> flock b l w h = flock b l' w h.
Proof.
  intros Hmap; unfold flock, separate, align, cohesion.
  rewrite (fold_left_same_view kinematics (separate_step b)
             (separate_step_view b) l l' _ Hmap).
  rewrite (fold_left_same_view kinematics (align_step b)
             (align_step_view b) l l' _ Hmap).
  rewrite (fold_left_same_view kinematics (cohesion_step b)
             (cohesion_step_view b) l l' _ Hmap).
  reflexivity.
Qed.

(** ... and writes the acceleration only. *)
Lemma kinematics_flock (b : Bird F) (l : list (Bird F)) (w h : Z) :
  kinematics (flock b l w h) = kinematics b.
Proof. reflexivity. Qed.

Lemma update_at_app (A : Type) (f : A -> A) (done : list A) (a : A) (todo : list A) :
  update_at (length done) f (done ++ a :: todo) = done ++ f a :: todo.
Proof.
  induction done as [|d done IH]; simpl; [reflexivity | now rewrite IH].
Qed.

Lemma flock_pass_loop (bs : list (Bird F)) (w h : Z) :
  forall (todo done : list (Bird F)),
    map kinematics (done ++ todo) = map kinematics bs ->
    fold_left (fun cur i => update_at i (fun bird => flock bird cur w h) cur)
      (seq (length done) (length todo)) (done ++ todo)
    = done ++ map (fun b => flock b bs w h) todo.
Proof.
  induction todo as [|t todo IH]; intros done Hview; simpl.
  - reflexivity.
  - rewrite update_at_app.
    rewrite (flock_same_view t _ bs w h Hview).
    replace (done ++ flock t bs w h :: todo)
      with ((done ++ [flock t bs w h]) ++ todo) by (now rewrite <- app_assoc).
    replace (S (length done)) with (length (done ++ [flock t bs w h]))
      by (rewrite length_app; simpl; lia).
    rewrite IH.
    + now rewrite <- app_assoc.
    + rewrite <- Hview, <- app_assoc; simpl.
      rewrite !map_app; simpl. now rewrite kinematics_flock.
Qed.

(** The first pass of [updateSerial] gives every bird the forces computed
    from the vector as it was on entry: writing the accelerations in place
    does not disturb the birds still to come. *)
Lemma flock_pass_snapshot (bs : list (Bird F)) (w h : Z) :
  flock_pass bs w h = map (fun b => flock b bs w h) bs.
Proof. exact (flock_pass_loop bs w h bs [] eq_refl). Qed.

(** Loops over indices and loops over elements. *)
Lemma nth_of_map (A B : Type) (l : list A) (k : nat) (a : A) :
  nth_error l k = Some a ->
  forall (f : A -> B) (d : B), nth k (map f l) d = f a.
Proof.
  revert k; induction l as [|a' l IH]; intros [|k]; simpl; try discriminate.
  - now intros [= ->].
  - apply IH.
Qed.

Lemma fold_left_seq (A St : Type) (stepI : St -> nat -> St) (stepL : St -> A -> St) :
  forall (l : list A) (s : nat) (st : St),
    (forall st k a, nth_error l k = Some a -> stepI st (s + k)%nat = stepL st a) ->
    fold_left stepI (seq s (length l)) st = fold_left stepL l st.
Proof.
  induction l as [|a l IH]; intros s st Hstep; simpl; [reflexivity|].
  assert (H0 := Hstep st 0%nat a eq_refl). rewrite Nat.add_0_r in H0.
  rewrite H0. apply IH. intros st' k a' Hk.
  replace (S s + k)%nat with (s + S k)%nat by lia. now apply Hstep.
Qed.

Lemma map_combine_seq (A B : Type) (G : nat -> A -> B) (G' : A -> B) :
  forall (l : list A) (s : nat),
    (forall k a, nth_error l k = Some a -> G (s + k)%nat a = G' a) ->
    map (fun ib => G (fst ib) (snd ib)) (combine (seq s (length l)) l) = map G' l.
Proof.
  induction l as [|a l IH]; intros s HG; simpl; [reflexivity|].
  assert (H0 := HG 0%nat a eq_refl). rewrite Nat.add_0_r in H0.
  rewrite H0. f_equal. apply IH. intros k a' Hk.
  replace (S s + k)%nat with (s + S k)%nat by lia. now apply HG.
Qed.

End Serial_pass.

(** ** The parallel kernel in exact arithmetic *)

Module Kernel_facts.
Import Exact Exact_facts.
Local Open Scope R_scope.

Lemma sqrt_positive_iff (s : R) : 0 <= s -> (0 < sqrt s <-> 0 < s).
Proof.
  intros Hs; split; intros H.
  - destruct (Rle_lt_or_eq_dec 0 s Hs) as [Hlt|<-]; [assumption|].
    rewrite sqrt_0 in H; lra.
  - now apply sqrt_lt_R0.
Qed.

(** Comparing a square root with a bound, and comparing the squares. *)
Lemma sqrt_above_iff (m s : R) : 0 <= m -> 0 <= s -> (m < sqrt s <-> m * m < s).
Proof.
  intros Hm Hs. pose proof (sqrt_sqrt s Hs) as Hsq. pose proof (sqrt_pos s) as Hp.
  split; intros H; nra.
Qed.

Lemma sqrt_below_iff (m s : R) : 0 <= m -> 0 <= s -> (sqrt s < m <-> s < m * m).
Proof.
  intros Hm Hs. pose proof (sqrt_sqrt s Hs) as Hsq. pose proof (sqrt_pos s) as Hp.
  split; intros H; nra.
Qed.

Lemma Rltb_ext (a b c d : R) : (a < b <-> c < d) -> Rltb a b = Rltb c d.
Proof.
  intros Hiff. destruct (Rltb c d) eqn:Hcd.
  - apply Rltb_true, Hiff. now apply Rltb_true.
  - apply Rltb_false. apply Rltb_false in Hcd.
    destruct (Rle_lt_dec b a) as [H|H]; [assumption|]. apply Hiff in H. lra.
Qed.

(** [fast_limit] is [limit], for a bound that is not negative. *)
Lemma fast_limit_limit (a b cap : R) :
  0 <= cap ->
  fast_limit a b cap = (x (limit (Vec a b) cap), y (limit (Vec a b) cap)).
Proof.
  intros Hcap. unfold fast_limit, limit, fgtb.
  change (fltb (fmul cap cap) (fadd (fmul a a) (fmul b b)))
    with (Rltb (cap * cap) (a * a + b * b)).
  change (fltb (of_int 0) (fadd (fmul a a) (fmul b b)))
    with (Rltb 0 (a * a + b * b)).
  change (fltb cap (magnitude (Vec a b))) with (Rltb cap (sqrt (a * a + b * b))).
  pose proof (sum_squares_nonneg a b) as Hs.
  rewrite (@Rltb_ext cap (sqrt (a * a + b * b)) (cap * cap) (a * a + b * b))
    by (now apply sqrt_above_iff).
  destruct (Rltb (cap * cap) (a * a + b * b)) eqn:Hcmp; simpl; [|reflexivity].
  apply Rltb_true in Hcmp.
  assert (Hpos : 0 < a * a + b * b) by nra.
  apply Rltb_true in Hpos as Hposb. rewrite Hposb.
  assert (Hmag : 0 < magnitude (Vec a b))
    by (rewrite magnitude_eq; now apply sqrt_lt_R0).
  rewrite (normalize_positive _ Hmag). rewrite magnitude_eq in *.
  simpl. f_equal; field; lra.
Qed.

(** The steering block of the parallel kernel is normalise, scale,
    subtract, [limit]. *)
Lemma par_steer_limit (sx sy speed vix viy cap : R) :
  0 < sx * sx + sy * sy -> 0 <= cap ->
  par_steer sx sy (sx * sx + sy * sy) speed vix viy cap =
  let steer :=
    limit (vsub (vscale (normalize (Vec sx sy)) speed) (Vec vix viy)) cap in
  (x steer, y steer).
Proof.
  intros Hpos Hcap. unfold par_steer. rewrite fast_limit_limit by assumption.
  assert (Hmag : 0 < magnitude (Vec sx sy))
    by (rewrite magnitude_eq; now apply sqrt_lt_R0).
  rewrite (normalize_positive _ Hmag). rewrite magnitude_eq in *.
  simpl.
  replace (sx * (1 / 1 / sqrt (sx * sx + sy * sy)) * speed - vix)
    with (sx / sqrt (sx * sx + sy * sy) * speed - vix) by (field; lra).
  replace (sy * (1 / 1 / sqrt (sx * sx + sy * sy)) * speed - viy)
    with (sy / sqrt (sx * sx + sy * sy) * speed - viy) by (field; lra).
  reflexivity.
Qed.

End Kernel_facts.

(** ** [updateParallel] against [updateSerial], in exact arithmetic *)

Module Equivalence.
Import Exact Exact_facts Kernel_facts.
Local Open Scope R_scope.

(** The accumulators of the kernel, from the states of the three loops of
    the rules. *)
Definition accum_of (s a c : Vector2D R * Z) : Accum R :=
  mkAccum (x (fst s)) (y (fst s)) (snd s)
          (x (fst a)) (y (fst a)) (snd a)
          (x (fst c)) (y (fst c)) (snd c).

(** The body of the neighbour loop of the kernel, for the bird [b] meeting
    the bird [o]: [neighbour_step] with the four arrays read at [o]. *)
Definition neighbour_of (b : Bird R) (sepR2 aliR2 cohR2 : R) (st : Accum R)
    (o : Bird R) : Accum R :=
  neighbour_step (x (position b)) (y (position b)) sepR2 aliR2 cohR2
    [x (position o)] [y (position o)] [x (velocity o)] [y (velocity o)] st 0.

(** One iteration: the tests on squared distances are the tests of the
    rules, and [dx * invd * invd] is the normalised difference over [d]. *)
Lemma neighbour_of_steps (b o : Bird R) (s a c : Vector2D R * Z) :
  0 <= separationRadius b -> 0 <= alignmentRadius b -> 0 <= cohesionRadius b ->
  neighbour_of b (separationRadius b * separationRadius b)
    (alignmentRadius b * alignmentRadius b)
    (cohesionRadius b * cohesionRadius b) (accum_of s a c) o =
  accum_of (separate_step b s o) (align_step b a o) (cohesion_step b c o).
Proof.
  intros Hs Ha Hc.
  destruct b as [[px py] bv ba br bms bmf sr ar cr c1 c2 c3 c4].
  destruct o as [[ox oy] [ovx ovy] oa or oms omf osr oar ocr d1 d2 d3 d4].
  destruct s as [[s1 s2] sc], a as [[a1 a2] ac], c as [[k1 k2] kc].
  unfold neighbour_of, neighbour_step, separate_step, align_step, cohesion_step,
    accum_of, distance, normalize, fgtb, vsub, vadd, vdiv, magnitude, fzero.
  simpl in *.
  set (D2 := (px - ox) * (px - ox) + (py - oy) * (py - oy)).
  assert (HD2 : 0 <= D2) by apply sum_squares_nonneg.
  rewrite (@Rltb_ext 0 (sqrt D2) 0 D2) by (now apply sqrt_positive_iff).
  rewrite (@Rltb_ext (sqrt D2) sr D2 (sr * sr)) by (now apply sqrt_below_iff).
  rewrite (@Rltb_ext (sqrt D2) ar D2 (ar * ar)) by (now apply sqrt_below_iff).
  rewrite (@Rltb_ext (sqrt D2) cr D2 (cr * cr)) by (now apply sqrt_below_iff).
  destruct (Rltb 0 D2) eqn:Hpos; simpl; [|reflexivity].
  apply Rltb_true in Hpos. apply sqrt_lt_R0 in Hpos.
  destruct (Rltb D2 (sr * sr)), (Rltb D2 (ar * ar)), (Rltb D2 (cr * cr));
    simpl; try reflexivity; f_equal; field; lra.
Qed.

(** The whole loop: the nine accumulators are the sums and counts of
    [separate], [align] and [cohesion]. *)
Lemma neighbour_fold (b : Bird R) (l : list (Bird R)) :
  0 <= separationRadius b -> 0 <= alignmentRadius b -> 0 <= cohesionRadius b ->
  forall s a c,
    fold_left (neighbour_of b (separationRadius b * separationRadius b)
                 (alignmentRadius b * alignmentRadius b)
                 (cohesionRadius b * cohesionRadius b)) l (accum_of s a c) =
    accum_of (fold_left (separate_step b) l s) (fold_left (align_step b) l a)
      (fold_left (cohesion_step b) l c).
Proof.
  intros Hs Ha Hc; induction l as [|o l IH]; intros s a c; simpl.
  - reflexivity.
  - rewrite neighbour_of_steps by assumption. apply IH.
Qed.

(** The steering of the parallel kernel: that of the rules, skipped when
    the direction is the zero vector. *)
Definition guarded_steer (b : Bird R) (dir : Vector2D R) : Vector2D R :=
  if Rltb 0 (x dir * x dir + y dir * y dir)
  then limit (vsub (vscale (normalize dir) (maxSpeed b)) (velocity b)) (maxForce b)
  else Vec 0 0.

Definition guarded_separate (b : Bird R) (bs : list (Bird R)) : Vector2D R :=
  let st := fold_left (separate_step b) bs (vzero, 0%Z) in
  if (snd st >? 0)%Z then guarded_steer b (vdiv (fst st) (IZR (snd st)))
  else Vec 0 0.

Definition guarded_align (b : Bird R) (bs : list (Bird R)) : Vector2D R :=
  let st := fold_left (align_step b) bs (vzero, 0%Z) in
  if (snd st >? 0)%Z then guarded_steer b (vdiv (fst st) (IZR (snd st)))
  else Vec 0 0.

Definition guarded_cohesion (b : Bird R) (bs : list (Bird R)) : Vector2D R :=
  let st := fold_left (cohesion_step b) bs (vzero, 0%Z) in
  if (snd st >? 0)%Z
  then guarded_steer b (vsub (vdiv (fst st) (IZR (snd st))) (position b))
  else Vec 0 0.

(** Rewrites the operations of the interface into those of [R]. *)
Ltac to_reals :=
  cbn [fadd fsub fmul fdiv fsqrt fabs fneg fltb of_int lit R_ops fgtb
       x y fst snd vdiv vsub
       position velocity acceleration maxSpeed maxForce
       separationRadius alignmentRadius cohesionRadius
       sep_x sep_y sep_c ali_x ali_y ali_c coh_x coh_y coh_c] in *.

(** One guarded block of the kernel, with what follows it as [K]. *)
Lemma guarded_block (A : Type) (dx dy speed vix viy cap : R)
    (K : R -> R -> A) (E : A) :
  0 <= cap ->
  (if Rltb 0 (dx * dx + dy * dy)
   then let '(sx, sy) := par_steer dx dy (dx * dx + dy * dy) speed vix viy cap in
        K sx sy
   else E) =
  (if Rltb 0 (dx * dx + dy * dy)
   then K (x (limit (vsub (vscale (normalize (Vec dx dy)) speed) (Vec vix viy)) cap))
          (y (limit (vsub (vscale (normalize (Vec dx dy)) speed) (Vec vix viy)) cap))
   else E).
Proof.
  intros Hcap.
  destruct (Rltb 0 (dx * dx + dy * dy)) eqn:Hpos; [|reflexivity].
  apply Rltb_true in Hpos. now rewrite par_steer_limit.
Qed.

(** What the kernel writes into [ax[i], ay[i]]: the weighted sum of the
    guarded rules and of [environmentalBias]. *)
Lemma parallel_force_rules (bs : list (Bird R)) (w h : Z) (i : nat) (b : Bird R) :
  nth_error bs i = Some b ->
  0 <= separationRadius b -> 0 <= alignmentRadius b -> 0 <= cohesionRadius b ->
  0 <= maxForce b ->
  parallel_force bs h
    (map (fun o => x (position o)) bs) (map (fun o => y (position o)) bs)
    (map (fun o => x (velocity o)) bs) (map (fun o => y (velocity o)) bs)
    (separationRadius b * separationRadius b)
    (alignmentRadius b * alignmentRadius b)
    (cohesionRadius b * cohesionRadius b) i b =
  let S := guarded_separate b bs in
  let A := guarded_align b bs in
  let C := guarded_cohesion b bs in
  let B := environmentalBias b w h in
  (0 + 15 / 10 * x S + x A + x C + 8 / 10 * x B,
   0 + 15 / 10 * y S + y A + y C + 8 / 10 * y B).
Proof.
  intros Hi Hs Ha Hc Hf. unfold parallel_force.
  rewrite !(@nth_of_map _ _ _ _ _ Hi).
  rewrite (fold_left_seq _
             (neighbour_of b (separationRadius b * separationRadius b)
                (alignmentRadius b * alignmentRadius b)
                (cohesionRadius b * cohesionRadius b))).
  2:{ intros st k o Hk. simpl. unfold neighbour_of, neighbour_step.
      rewrite !(@nth_of_map _ _ _ _ _ Hk). reflexivity. }
  change (mkAccum (of_int 0) (of_int 0) 0%Z (of_int 0) (of_int 0) 0%Z (of_int 0) (of_int 0) 0%Z)
    with (accum_of (@vzero R _, 0%Z) (@vzero R _, 0%Z) (@vzero R _, 0%Z)).
  rewrite neighbour_fold by assumption.
  unfold guarded_separate, guarded_align, guarded_cohesion, guarded_steer,
    environmentalBias.
  destruct (fold_left (separate_step b) bs (vzero, 0%Z)) as [[s1 s2] sc].
  destruct (fold_left (align_step b) bs (vzero, 0%Z)) as [[a1 a2] ac].
  destruct (fold_left (cohesion_step b) bs (vzero, 0%Z)) as [[k1 k2] kc].
  clear Hi.
  destruct b as [[px py] [v1 v2] ba br bms bmf sr ar cr c1 c2 c3 c4].
  unfold accum_of. to_reals.
  assert (Hhalf : 0 <= bmf * (5 / 10)) by lra.
  set (by_ := if Rltb (IZR h * (3 / 10)) py
              then - ((py - IZR h * (3 / 10)) / (IZR h * (3 / 10))) * (8 / 10)
              else 15 / 100).
  assert (Hb2 : Rltb 0 (5 / 10 * (5 / 10) + by_ * by_) = true)
    by (apply Rltb_true; nra).
  rewrite (@guarded_block _ (s1 / IZR sc) (s2 / IZR sc)) by assumption.
  destruct (sc >? 0)%Z;
    [destruct (Rltb 0 (s1 / IZR sc * (s1 / IZR sc) + s2 / IZR sc * (s2 / IZR sc)))|];
    cbv beta iota;
    rewrite (@guarded_block _ (a1 / IZR ac) (a2 / IZR ac)) by assumption;
    (destruct (ac >? 0)%Z;
     [destruct (Rltb 0 (a1 / IZR ac * (a1 / IZR ac) + a2 / IZR ac * (a2 / IZR ac)))|];
     cbv beta iota;
     rewrite (@guarded_block _ (k1 / IZR kc - px) (k2 / IZR kc - py)) by assumption;
     (destruct (kc >? 0)%Z;
      [destruct (Rltb 0 ((k1 / IZR kc - px) * (k1 / IZR kc - px) +
                         (k2 / IZR kc - py) * (k2 / IZR kc - py)))|];
      cbv beta iota;
      rewrite (@guarded_block _ (5 / 10) by_) by assumption;
      rewrite Hb2;
      unfold vdiv, vsub; to_reals; apply (f_equal2 pair); ring)).
Qed.

(** The count of a neighbour loop never decreases, and the sum moves only
    when the count does. *)
Lemma separate_count (b : Bird R) (l : list (Bird R)) :
  forall st,
    (snd st <= snd (fold_left (separate_step b) l st))%Z /\
    (snd (fold_left (separate_step b) l st) = snd st ->
     fold_left (separate_step b) l st = st).
Proof.
  induction l as [|o l IH]; intros st; simpl.
  - split; [lia | reflexivity].
  - destruct (IH (separate_step b st o)) as [Hle Heq].
    unfold separate_step in *.
    destruct (fgtb (distance (position b) (position o)) fzero
              && fltb (distance (position b) (position o)) (separationRadius b));
      simpl in *.
    + split; [lia | intros H; lia].
    + split; assumption.
Qed.

Lemma sum_squares_positive (v : Vector2D R) :
  v <> Vec 0 0 -> 0 < x v * x v + y v * y v.
Proof.
  intros Hv. destruct v as [a c]; simpl.
  destruct (Rle_lt_dec (a * a + c * c) 0) as [Hle|Hlt]; [|assumption].
  exfalso; apply Hv. f_equal; nra.
Qed.

Lemma guarded_steer_positive (b : Bird R) (dir : Vector2D R) :
  0 < x dir * x dir + y dir * y dir ->
  guarded_steer b dir =
  limit (vsub (vscale (normalize dir) (maxSpeed b)) (velocity b)) (maxForce b).
Proof. intros H; unfold guarded_steer. apply Rltb_true in H. now rewrite H. Qed.

(** Separation: the serial rule has the guard of the kernel. *)
Lemma separate_guarded (b : Bird R) (bs : list (Bird R)) :
  separate b bs = guarded_separate b bs.
Proof.
  unfold separate, guarded_separate.
  destruct (separate_count b bs (vzero, 0%Z)) as [Hle Heq].
  destruct (fold_left (separate_step b) bs (vzero, 0%Z)) as [steer count].
  cbn [fst snd] in *.
  destruct (Z.gtb_spec count 0) as [Hpos|Hnone].
  - change (of_int count) with (IZR count).
    generalize (vdiv steer (IZR count)); intros [mx my].
    unfold guarded_steer, fgtb.
    change (fltb fzero (magnitude (Vec mx my)))
      with (Rltb 0 (sqrt (mx * mx + my * my))).
    cbn [x y].
    rewrite (@Rltb_ext 0 (sqrt (mx * mx + my * my)) 0 (mx * mx + my * my))
      by (apply sqrt_positive_iff, sum_squares_nonneg).
    destruct (Rltb 0 (mx * mx + my * my)) eqn:Hm; [reflexivity|].
    apply Rltb_false in Hm. f_equal; nra.
  - assert (count = 0%Z) as -> by lia.
    now injection (Heq eq_refl) as ->.
Qed.

(** A bird is regular in a flock when the mean velocity of its alignment
    neighbours is not zero and the mean position of its cohesion
    neighbours is not its own position. *)
Definition regular (b : Bird R) (bs : list (Bird R)) : Prop :=
  (let st := fold_left (align_step b) bs (vzero, 0%Z) in
   (0 < snd st)%Z -> vdiv (fst st) (IZR (snd st)) <> Vec 0 0) /\
  (let st := fold_left (cohesion_step b) bs (vzero, 0%Z) in
   (0 < snd st)%Z -> vdiv (fst st) (IZR (snd st)) <> position b).

(** Alignment and cohesion: the serial rules have no such guard, and agree
    with the kernel for a regular bird only. *)
Lemma align_guarded (b : Bird R) (bs : list (Bird R)) :
  regular b bs -> align b bs = guarded_align b bs.
Proof.
  intros [Hreg _]. unfold align, guarded_align.
  destruct (fold_left (align_step b) bs (vzero, 0%Z)) as [sum count]; simpl in *.
  destruct (Z.gtb_spec count 0) as [Hpos|Hnone]; [|reflexivity].
  rewrite guarded_steer_positive; [reflexivity|].
  apply sum_squares_positive. now apply Hreg.
Qed.

Lemma cohesion_guarded (b : Bird R) (bs : list (Bird R)) :
  regular b bs -> cohesion b bs = guarded_cohesion b bs.
Proof.
  intros [_ Hreg]. unfold cohesion, guarded_cohesion.
  destruct (fold_left (cohesion_step b) bs (vzero, 0%Z)) as [sum count]; simpl in *.
  destruct (Z.gtb_spec count 0) as [Hpos|Hnone]; [|reflexivity].
  rewrite guarded_steer_positive; [reflexivity|].
  apply sum_squares_positive. intros Hd.
  apply (Hreg Hpos). now apply Seek_facts.vsub_eq_inv.
Qed.

(** [flock] adds to the acceleration what the kernel puts in its buffer. *)
Lemma flock_parallel_force (bs : list (Bird R)) (w h : Z) (i : nat) (b : Bird R) :
  nth_error bs i = Some b ->
  0 <= separationRadius b -> 0 <= alignmentRadius b -> 0 <= cohesionRadius b ->
  0 <= maxForce b -> regular b bs ->
  integrate w h b
    (parallel_force bs h
       (map (fun o => x (position o)) bs) (map (fun o => y (position o)) bs)
       (map (fun o => x (velocity o)) bs) (map (fun o => y (velocity o)) bs)
       (separationRadius b * separationRadius b)
       (alignmentRadius b * alignmentRadius b)
       (cohesionRadius b * cohesionRadius b) i b)
  = borders (update (flock b bs w h)) w h.
Proof.
  intros Hi Hs Ha Hc Hf Hreg.
  rewrite (@parallel_force_rules bs w h i b Hi Hs Ha Hc Hf).
  unfold integrate, flock. do 2 f_equal.
  rewrite (separate_guarded b bs), (@align_guarded b bs Hreg), (@cohesion_guarded b bs Hreg).
  generalize (guarded_separate b bs) (guarded_align b bs) (guarded_cohesion b bs)
    (environmentalBias b w h).
  intros [S1 S2] [A1 A2] [C1 C2] [B1 B2].
  destruct b as [bp bv [ax ay] br bms bmf sr ar cr c1 c2 c3 c4].
  unfold applyForce, set_acceleration, vadd, vscale; simpl.
  f_equal. f_equal; field.
Qed.

Lemma map_combine_indexed (A B C : Type) (H : A -> B -> C) (G : nat -> A -> B)
    (H' : A -> C) :
  forall (l : list A) (s : nat),
    (forall k a, nth_error l k = Some a -> H a (G (s + k)%nat a) = H' a) ->
    map (fun ab => H (fst ab) (snd ab))
      (combine l (map (fun ib => G (fst ib) (snd ib)) (combine (seq s (length l)) l)))
    = map H' l.
Proof.
  induction l as [|a l IH]; intros s HG; simpl; [reflexivity|].
  assert (H0 := HG 0%nat a eq_refl). rewrite Nat.add_0_r in H0.
  rewrite H0. f_equal. apply IH. intros k a' Hk.
  replace (S s + k)%nat with (s + S k)%nat by lia. now apply HG.
Qed.

(** Uniform radii, none negative, and no negative force cap. *)
Definition well_formed (bs : list (Bird R)) : Prop :=
  forall b, In b bs ->
    0 <= separationRadius b /\ 0 <= alignmentRadius b /\
    0 <= cohesionRadius b /\ 0 <= maxForce b /\
    forall b', In b' bs ->
      separationRadius b' = separationRadius b /\
      alignmentRadius b' = alignmentRadius b /\
      cohesionRadius b' = cohesionRadius b.

(** In exact arithmetic the two updates agree on every flock of uniform
    radii all of whose birds are regular. *)
Lemma parallel_matches_serial_when_regular (fs : FlockingSystem R) :
  well_formed (birds fs) ->
  (forall b, In b (birds fs) -> regular b (birds fs)) ->
  updateParallel fs = updateSerial fs.
Proof.
  intros Hwf Hreg. destruct fs as [bs w h]; simpl in *.
  unfold updateParallel, updateSerial; simpl.
  rewrite flock_pass_snapshot, map_map.
  destruct bs as [|b0 bs'] eqn:Hbs; [reflexivity|].
  rewrite <- Hbs in *. f_equal.
  apply map_combine_indexed. intros k b Hk; simpl.
  assert (Hin : In b bs) by (eapply nth_error_In; eassumption).
  assert (Hin0 : In b0 bs) by (rewrite Hbs; now left).
  destruct (Hwf b Hin) as (Hs & Ha & Hc & Hf & Hsame).
  destruct (Hsame b0 Hin0) as (-> & -> & ->).
  apply flock_parallel_force; auto.
Qed.

(** A bird is not its own neighbour, so a bird alone is regular and the
    two updates agree on a flock of one bird. *)
Lemma in_range_self_exact (b : Bird R) (radius : R) : in_range b b radius = false.
Proof.
  unfold in_range, distance. rewrite Seek_facts.vsub_diag, magnitude_zero.
  unfold fgtb.
  change (fltb fzero 0) with (Rltb 0 0).
  replace (Rltb 0 0) with false by (symmetry; apply Rltb_false; lra).
  reflexivity.
Qed.

Lemma lone_bird_regular (b : Bird R) : regular b [b].
Proof.
  unfold regular; simpl.
  rewrite (align_step_out b b _ (in_range_self_exact b _)).
  rewrite (cohesion_step_out b b _ (in_range_self_exact b _)).
  simpl; split; intros H; lia.
Qed.

Lemma parallel_matches_serial_lone_bird (b : Bird R) (w h : Z) :
  0 <= separationRadius b -> 0 <= alignmentRadius b -> 0 <= cohesionRadius b ->
  0 <= maxForce b ->
  updateParallel (mkFlock [b] w h) = updateSerial (mkFlock [b] w h).
Proof.
  intros Hs Ha Hc Hf. apply parallel_matches_serial_when_regular; simpl.
  - intros b1 [<- | []]. repeat split; try assumption;
      destruct H as [<- | []]; reflexivity.
  - intros b1 [<- | []]. apply lone_bird_regular.
Qed.

End Equivalence.

(** ** [updateSerial] and [updateParallel] *)

(** Both are no-ops on an empty flock, in any arithmetic. *)
Lemma update_empty_flock (F : Type) (ops : FloatOps F) (w h : Z) :
  updateSerial (mkFlock (@nil (Bird F)) w h) = mkFlock [] w h /\
  updateParallel (mkFlock (@nil (Bird F)) w h) = mkFlock [] w h.
Proof. split; reflexivity. Qed.

Module Divergence.
Import IEEE.

(** Relative tolerance of the comparison of the two updates:
    [|a - b| <= tol * max(|a|, |b|)], on the exact values of the floats. *)
Definition within_tolerance (tol : Q) (a b : float) : bool :=
  let qa := Q_of_sf (f32 a) in
  let qb := Q_of_sf (f32 b) in
  let big := if Qle_bool (Qabs qa) (Qabs qb) then Qabs qb else Qabs qa in
  is_finite (f32 a) && is_finite (f32 b)
  && Qle_bool (Qabs (qa - qb)) (tol * big).

(** Three birds as the constructor makes them (uniform radii and caps),
    placed on a line 30 apart, all heading along the [x] axis, in a
    640 x 480 window.  The middle bird sits at the centre of mass of its
    two neighbours. *)
Definition bird_at (px py : Z) : Bird float :=
  Bird_new (of_int px) (of_int py) (Vec (of_int 2) (of_int 0)) 200 150 100.

Definition lined_up : FlockingSystem float :=
  mkFlock [bird_at 0 10; bird_at 30 10; bird_at 60 10] 640 480.

Definition middle (fs : FlockingSystem float) : Bird float :=
  nth 1 (birds fs) (bird_at 0 0).

(** In [updateSerial] the cohesion force of the middle bird is
    [seek] of its own position: [(-0.03f, 0)]. *)
Lemma serial_cohesion_of_middle :
  cohesion (middle lined_up) (birds lined_up) =
  Vec (F32 (S754_finite true 16106127 (-29))) (F32 (S754_zero false)).
Proof. vm_compute; reflexivity. Qed.

End Divergence.

(** C1, at the flock [lined_up].  After one step the middle bird has
    velocity [x = 16428004 * 2^-23] (about 1.9584) under [updateSerial] and
    [x = 16679662 * 2^-23] (about 1.9884) under [updateParallel]: the
    difference, 0.03, is the cohesion force that the parallel kernel skips
    when the centre of mass of the neighbours is the bird's own position.
    Neither the velocities nor the positions agree within a relative
    tolerance of 1e-4. *)
Theorem parallel_diverges_from_serial :
  let s := Divergence.middle (updateSerial Divergence.lined_up) in
  let p := Divergence.middle (updateParallel Divergence.lined_up) in
  x (velocity s) = IEEE.F32 (S754_finite false 16428004 (-23)) /\
  x (velocity p) = IEEE.F32 (S754_finite false 16679662 (-23)) /\
  x (position s) = IEEE.F32 (S754_finite false 16755390 (-19)) /\
  x (position p) = IEEE.F32 (S754_finite false 16771119 (-19)) /\
  Divergence.within_tolerance (1 # 10000) (x (velocity s)) (x (velocity p)) = false /\
  Divergence.within_tolerance (1 # 10000) (x (position s)) (x (position p)) = false.
Proof. vm_compute. repeat split; reflexivity. Qed.

(** ** The rules evaluated in binary32 *)

Module Binary32_examples.
Import IEEE Divergence.

(** [borders] in a 640 x 480 window, for birds of radius 4: the four wraps
    are exact, and a bird inside the window stays where it is. *)
Lemma borders_wraps_binary32 :
  position (borders (bird_at 645 100) 640 480) = Vec (fneg (of_int 4)) (of_int 100) /\
  position (borders (bird_at (-5) 100) 640 480) = Vec (of_int 644) (of_int 100) /\
  position (borders (bird_at 100 485) 640 480) = Vec (of_int 100) (fneg (of_int 4)) /\
  position (borders (bird_at 100 (-5)) 640 480) = Vec (of_int 100) (of_int 484) /\
  position (borders (bird_at 644 (-4)) 640 480) = Vec (of_int 644) (fneg (of_int 4)).
Proof. vm_compute. repeat split; reflexivity. Qed.

(** [update] of a bird whose velocity has become [(2, 0) + (1, 4)]: the
    new velocity has magnitude [2.0f], the position has moved by it and
    the acceleration is zero. *)
Lemma update_caps_binary32 :
  let b := set_acceleration (bird_at 0 0) (Vec (of_int 1) (of_int 4)) in
  magnitude (velocity (update b)) = of_int 2 /\
  position (update b) = velocity (update b) /\
  acceleration (update b) = Vec (of_int 0) (of_int 0).
Proof. vm_compute. repeat split; reflexivity. Qed.

End Binary32_examples.

(** ** The theorems at concrete birds and flocks *)

Module Witnesses.
Import IEEE Divergence.

(** A bird alone in its flock (binary32). *)
Definition lone : Bird float := bird_at 100 100.

(** A bird of exact arithmetic, as the constructor makes it. *)
Definition bird_R (px py vx vy : Z) : Bird R :=
  Bird_new (IZR px) (IZR py) (Vec (IZR vx) (IZR vy)) 200 150 100.

Lemma bird_R_caps (px py vx vy : Z) :
  (0 <= r (bird_R px py vx vy))%R /\
  (0 <= maxSpeed (bird_R px py vx vy))%R /\
  (0 < maxForce (bird_R px py vx vy))%R.
Proof. simpl; repeat split; lra. Defined.

End Witnesses.

Lemma no_contributor_zero_steering_witness :
  separate Witnesses.lone [Witnesses.lone] = vzero /\
  align Witnesses.lone [Witnesses.lone] = vzero /\
  cohesion Witnesses.lone [Witnesses.lone] = vzero.
Proof.
  destruct (no_contributor_zero_steering _ Witnesses.lone [Witnesses.lone])
    as (Hs & Ha & Hc).
  split; [|split]; [apply Hs | apply Ha | apply Hc];
    intros other [<- | []]; vm_compute; reflexivity.
Defined.

Lemma removeBoids_drops_tail_witness :
  removeBoids Divergence.lined_up 5 = Some (mkFlock [] 640 480) /\
  (exists fs' : FlockingSystem IEEE.float,
     removeBoids Divergence.lined_up 1 = Some fs' /\
     birds fs' = [Divergence.bird_at 0 10; Divergence.bird_at 30 10]).
Proof.
  split.
  - apply (removeBoids_drops_tail Divergence.lined_up (n:=5));
      [lia | vm_compute; discriminate | simpl; lia].
  - destruct (removeBoids_drops_tail Divergence.lined_up (n:=1))
      as [_ H]; [lia | vm_compute; discriminate |].
    destruct H as (fs' & dropped & H1 & _ & _ & _ & H2 & _); [simpl; lia|].
    exists fs'; split; [exact H1 | exact H2].
Defined.

Lemma update_integrates_and_caps_witness :
  x (velocity (update (Witnesses.bird_R 0 0 3 4))) = ((3 + 0) / 5 * (2 / 1))%R /\
  y (velocity (update (Witnesses.bird_R 0 0 3 4))) = ((4 + 0) / 5 * (2 / 1))%R /\
  x (position (update (Witnesses.bird_R 0 0 3 4))) =
    (0 + x (velocity (update (Witnesses.bird_R 0 0 3 4))))%R.
Proof.
  assert (Hcap : (0 <= maxSpeed (Witnesses.bird_R 0 0 3 4))%R) by (simpl; lra).
  assert (Hm : sqrt ((3 + 0) * (3 + 0) + (4 + 0) * (4 + 0)) = 5%R).
  { replace ((3 + 0) * (3 + 0) + (4 + 0) * (4 + 0))%R with (5 * 5)%R by ring.
    apply sqrt_square. lra. }
  pose proof (proj1 update_integrates_and_caps (Witnesses.bird_R 0 0 3 4) Hcap) as H.
  cbv zeta in H. destruct H as (_ & Hout & _ & Hpx & _).
  change (x (velocity (Witnesses.bird_R 0 0 3 4))) with 3%R in Hout.
  change (y (velocity (Witnesses.bird_R 0 0 3 4))) with 4%R in Hout.
  change (x (acceleration (Witnesses.bird_R 0 0 3 4))) with 0%R in Hout.
  change (y (acceleration (Witnesses.bird_R 0 0 3 4))) with 0%R in Hout.
  change (maxSpeed (Witnesses.bird_R 0 0 3 4)) with (2 / 1)%R in Hout.
  rewrite Hm in Hout.
  destruct Hout as (Hx & Hy & _); [lra|].
  split; [exact Hx | split; [exact Hy | exact Hpx]].
Defined.

Lemma borders_wraps_witness :
  x (position (borders (Witnesses.bird_R 645 100 2 0) 640 480)) = (- (4 / 1))%R /\
  y (position (borders (Witnesses.bird_R 645 100 2 0) 640 480)) = 100%R.
Proof.
  destruct (Witnesses.bird_R_caps 645 100 2 0) as (Hr & _ & _).
  destruct (borders_wraps (Witnesses.bird_R 645 100 2 0) (width:=640) (height:=480) Hr)
    as (_ & _ & _ & _ & _ & Hy & Hx & _); [lia | lia |].
  split.
  - apply Hx. simpl. lra.
  - apply Hy. simpl. lra.
Defined.


Lemma getCoherence_mean_distance_witness :
  getCoherence (D:=IEEE.double) (mkFlock (@nil (Bird IEEE.float)) 640 480) = of_int 0 /\
  getCoherence (D:=R)
    (mkFlock [Witnesses.bird_R 0 0 2 0; Witnesses.bird_R 10 0 2 0] 640 480) = 5%R /\
  getCoherence (D:=IEEE.double)
    (mkFlock [Divergence.bird_at 0 0; Divergence.bird_at 10 0] 640 480) = of_int 5.
Proof.
  destruct getCoherence_mean_distance as (Hfew & _ & Hreal & Hfloat).
  split; [|split].
  - apply Hfew. simpl. lia.
  - apply Hreal; reflexivity.
  - apply Hfloat; reflexivity.
Defined.

(** * Further properties of the flocking kernel *)

(** ** [Bird::borders]: the band it keeps a bird in *)

Module Borders_facts.
Import Exact Exact_facts.
Local Open Scope R_scope.

(** The band of the window widened by the radius of the bird. *)
Definition in_band (b : Bird R) (width height : Z) : Prop :=
  - r b <= x (position b) <= IZR width + r b /\
  - r b <= y (position b) <= IZR height + r b.

(** What [borders] does to one coordinate [p] of a bird of radius [rad]
    in a window of extent [w]: the test against [-rad], then the test
    against [w + rad]. *)
Definition wrap (p rad w : R) : R :=
  let p1 := if Rltb p (- rad) then w + rad else p in
  if Rltb (w + rad) p1 then - rad else p1.

Ltac first_test :=
  match goal with
  | |- context [if Rltb ?u ?v then _ else _] =>
      lazymatch u with
      | context [if _ then _ else _] => fail
      | _ => idtac
      end;
      lazymatch v with
      | context [if _ then _ else _] => fail
      | _ => idtac
      end;
      destruct (Rltb u v)
  end.

Lemma borders_wrap (b : Bird R) (width height : Z) :
  borders b width height =
  set_position b (Vec (wrap (x (position b)) (r b) (IZR width))
                      (wrap (y (position b)) (r b) (IZR height))).
Proof.
  assert (Hp : forall (b0 : Bird R) p, position (set_position b0 p) = p)
    by reflexivity.
  assert (Hr : forall (b0 : Bird R) p, r (set_position b0 p) = r b0)
    by reflexivity.
  assert (Hset : forall (b0 : Bird R) p q,
            set_position (set_position b0 p) q = set_position b0 q)
    by reflexivity.
  assert (Hid : set_position b (Vec (x (position b)) (y (position b))) = b)
    by (destruct b as [[px py] v a rad ms mf sr ar cr cr_ cg cb ca]; reflexivity).
  unfold borders, wrap, fgtb.
  change (@fltb R _) with Rltb. change (@of_int R _) with IZR.
  change (@fadd R _) with Rplus. change (@fneg R _) with Ropp. cbv zeta.
  repeat (first_test; rewrite ?Hset, ?Hp, ?Hr; cbn [x y]);
    rewrite ?Hid; reflexivity.
Qed.

Lemma wrap_bounds (p rad w : R) :
  0 <= rad -> 0 <= w ->
  - rad <= wrap p rad w <= w + rad /\
  (- rad <= p <= w + rad -> wrap p rad w = p).
Proof.
  intros Hr Hw. unfold wrap.
  destruct (Rltb p (- rad)) eqn:H1;
    [apply Rltb_true in H1 | apply Rltb_false in H1].
  - rewrite (proj2 (Rltb_false (w + rad) (w + rad))) by lra.
    split; [lra | intros; lra].
  - destruct (Rltb (w + rad) p) eqn:H2;
      [apply Rltb_true in H2 | apply Rltb_false in H2];
      (split; [lra | intros; lra]).
Qed.

Lemma borders_into_band (b : Bird R) (width height : Z) :
  0 <= r b -> (0 <= width)%Z -> (0 <= height)%Z ->
  in_band (borders b width height) width height.
Proof.
  intros Hr Hw Hh. apply IZR_le in Hw, Hh.
  rewrite borders_wrap. unfold in_band.
  change (r (set_position b ?p)) with (r b).
  change (position (set_position b ?p)) with p. cbn [x y].
  split.
  - apply (wrap_bounds (x (position b)) Hr Hw).
  - apply (wrap_bounds (y (position b)) Hr Hh).
Qed.

Lemma borders_in_band (b : Bird R) (width height : Z) :
  0 <= r b -> (0 <= width)%Z -> (0 <= height)%Z ->
  in_band b width height -> borders b width height = b.
Proof.
  intros Hr Hw Hh [Hx Hy]. apply IZR_le in Hw, Hh. rewrite borders_wrap.
  rewrite (proj2 (wrap_bounds (x (position b)) Hr Hw) Hx).
  rewrite (proj2 (wrap_bounds (y (position b)) Hr Hh) Hy).
  destruct b as [[px py] v a rad ms mf sr ar cr cr_ cg cb ca]; reflexivity.
Qed.

Lemma borders_keeps (b : Bird R) (width height : Z) :
  velocity (borders b width height) = velocity b /\
  acceleration (borders b width height) = acceleration b /\
  r (borders b width height) = r b /\
  maxSpeed (borders b width height) = maxSpeed b.
Proof. rewrite borders_wrap. repeat split. Qed.

End Borders_facts.

(** X1: [borders] is a projection onto the band [[-r, width + r]] by
    [[-r, height + r]]: in exact arithmetic, for a radius and a window that
    are not negative, the bird it returns lies in the band, and a second
    call changes nothing. *)
Theorem borders_band_idempotent :
  forall (b : Bird R) (width height : Z),
    (0 <= r b)%R -> (0 <= width)%Z -> (0 <= height)%Z ->
    Borders_facts.in_band (borders b width height) width height /\
    borders (borders b width height) width height = borders b width height.
Proof.
  intros b width height Hr Hw Hh.
  pose proof (Borders_facts.borders_into_band b Hr Hw Hh) as Hband.
  split; [exact Hband|].
  apply Borders_facts.borders_in_band; try assumption.
  destruct (Borders_facts.borders_keeps b width height) as (_ & _ & -> & _).
  exact Hr.
Qed.

(** ** The four steering rules: how large a force can be *)

Module Steering_facts.
Import Exact Exact_facts.
Local Open Scope R_scope.

(** The triangle inequality for [magnitude]. *)
Lemma magnitude_vadd (u v : Vector2D R) :
  magnitude (vadd u v) <= magnitude u + magnitude v.
Proof.
  destruct u as [a b], v as [c d]; unfold vadd; simpl x; simpl y.
  rewrite !magnitude_eq; simpl.
  set (A := sqrt (a * a + b * b)). set (C := sqrt (c * c + d * d)).
  assert (HA : 0 <= A) by apply sqrt_pos.
  assert (HC : 0 <= C) by apply sqrt_pos.
  assert (HA2 : A * A = a * a + b * b) by apply sqrt_sqrt, sum_squares_nonneg.
  assert (HC2 : C * C = c * c + d * d) by apply sqrt_sqrt, sum_squares_nonneg.
  clearbody A C.
  assert (Hdot : a * c + b * d <= A * C).
  { destruct (Rle_lt_dec (a * c + b * d) (A * C)) as [H|H]; [assumption|].
    assert (0 <= A * C) by now apply Rmult_le_pos.
    assert ((A * C) * (A * C) < (a * c + b * d) * (a * c + b * d))
      by (apply Rmult_le_0_lt_compat; assumption).
    assert ((a * c + b * d) * (a * c + b * d)
            <= (a * a + b * b) * (c * c + d * d))
      by (pose proof (sum_squares_nonneg (a * d - b * c) 0); nra).
    replace ((A * C) * (A * C)) with ((A * A) * (C * C)) in * by ring.
    rewrite HA2, HC2 in *. lra. }
  rewrite <- (sqrt_square (A + C)) by lra.
  apply sqrt_le_1_alt. nra.
Qed.

Lemma guarded_steer_bound (b : Bird R) (dir : Vector2D R) :
  0 <= maxForce b -> magnitude (Equivalence.guarded_steer b dir) <= maxForce b.
Proof.
  intros Hf. unfold Equivalence.guarded_steer.
  destruct (Rltb 0 (x dir * x dir + y dir * y dir)).
  - now apply magnitude_limit.
  - now rewrite magnitude_zero.
Qed.

Lemma separate_bound (b : Bird R) (bs : list (Bird R)) :
  0 <= maxForce b -> magnitude (separate b bs) <= maxForce b.
Proof.
  intros Hf. rewrite Equivalence.separate_guarded.
  unfold Equivalence.guarded_separate.
  destruct (snd (fold_left (separate_step b) bs (vzero, 0%Z)) >? 0)%Z.
  - now apply guarded_steer_bound.
  - now rewrite magnitude_zero.
Qed.

Lemma align_bound (b : Bird R) (bs : list (Bird R)) :
  0 <= maxForce b -> magnitude (align b bs) <= maxForce b.
Proof.
  intros Hf. unfold align.
  destruct (snd (fold_left (align_step b) bs (vzero, 0%Z)) >? 0)%Z.
  - now apply magnitude_limit.
  - change (of_int 0) with 0. now rewrite magnitude_zero.
Qed.

Lemma cohesion_bound (b : Bird R) (bs : list (Bird R)) :
  0 <= maxForce b -> magnitude (cohesion b bs) <= maxForce b.
Proof.
  intros Hf. unfold cohesion.
  destruct (snd (fold_left (cohesion_step b) bs (vzero, 0%Z)) >? 0)%Z.
  - unfold seek. now apply magnitude_limit.
  - change (of_int 0) with 0. now rewrite magnitude_zero.
Qed.

Lemma environmentalBias_bound (b : Bird R) (w h : Z) :
  0 <= maxForce b -> magnitude (environmentalBias b w h) <= maxForce b * (5 / 10).
Proof.
  intros Hf. unfold environmentalBias.
  apply magnitude_limit. change (fmul (maxForce b) (lit 5 10)) with (maxForce b * (5 / 10)).
  lra.
Qed.

(** What [flock] adds to the acceleration. *)
Lemma flock_adds (b : Bird R) (bs : list (Bird R)) (w h : Z) :
  vsub (acceleration (flock b bs w h)) (acceleration b) =
  vadd (vadd (vadd (vscale (separate b bs) (15 / 10)) (vscale (align b bs) (1 / 1)))
             (vscale (cohesion b bs) (1 / 1)))
       (vscale (environmentalBias b w h) (8 / 10)).
Proof.
  unfold flock.
  generalize (separate b bs) (align b bs) (cohesion b bs) (environmentalBias b w h).
  intros [S1 S2] [A1 A2] [C1 C2] [B1 B2].
  destruct b as [bp bv [ax ay] br bms bmf sr ar cr c1 c2 c3 c4].
  unfold applyForce, set_acceleration, vadd, vscale, vsub; simpl.
  f_equal; ring.
Qed.

End Steering_facts.

(** X2: in exact arithmetic, for a bird whose [maxForce] is not negative,
    each of [separate], [align] and [cohesion] returns a force of magnitude
    at most [maxForce], whatever the flock, and [environmentalBias] one of
    magnitude at most half of [maxForce] in a window whose height is not
    zero.  (It divides by [windowHeight * 0.3f] and by
    [windowHeight * 0.5f]: at height zero the binary32 result is NaN, see
    [Binary32_facts.flat_window].) *)
Theorem steering_rules_bounded :
  forall (b : Bird R) (bs : list (Bird R)) (w h : Z),
    (0 <= maxForce b)%R ->
    (magnitude (separate b bs) <= maxForce b)%R /\
    (magnitude (align b bs) <= maxForce b)%R /\
    (magnitude (cohesion b bs) <= maxForce b)%R /\
    (h <> 0%Z ->
     (magnitude (environmentalBias b w h) <= maxForce b * (5 / 10))%R).
Proof.
  intros b bs w h Hf. split; [|split; [|split]].
  - now apply Steering_facts.separate_bound.
  - now apply Steering_facts.align_bound.
  - now apply Steering_facts.cohesion_bound.
  - intros _. now apply Steering_facts.environmentalBias_bound.
Qed.

(** X3: in exact arithmetic, in a window whose height is not zero, one
    call of [flock] moves the acceleration by at most [3.9 * maxForce]
    (the weights 1.5, 1, 1 and 0.8 on forces of at most [maxForce],
    [maxForce], [maxForce] and [maxForce / 2]), and changes nothing else
    of the bird.  (At height zero the bias is NaN in binary32, see
    [Binary32_facts.flat_window].) *)
Theorem flock_acceleration_bounded :
  forall (b : Bird R) (bs : list (Bird R)) (w h : Z),
    (0 <= maxForce b)%R -> h <> 0%Z ->
    (magnitude (vsub (acceleration (flock b bs w h)) (acceleration b))
     <= 39 / 10 * maxForce b)%R /\
    set_acceleration (flock b bs w h) (acceleration b) = b.
Proof.
  intros b bs w h Hf _. split.
  - rewrite Steering_facts.flock_adds.
    pose proof (Steering_facts.separate_bound b bs Hf) as HS.
    pose proof (Steering_facts.align_bound b bs Hf) as HA.
    pose proof (Steering_facts.cohesion_bound b bs Hf) as HC.
    pose proof (Steering_facts.environmentalBias_bound b w h Hf) as HB.
    eapply Rle_trans; [apply Steering_facts.magnitude_vadd|].
    eapply Rle_trans;
      [apply Rplus_le_compat_r, Steering_facts.magnitude_vadd|].
    eapply Rle_trans;
      [apply Rplus_le_compat_r, Rplus_le_compat_r, Steering_facts.magnitude_vadd|].
    rewrite !Exact_facts.magnitude_vscale.
    rewrite !Rabs_pos_eq by lra. lra.
  - destruct b; reflexivity.
Qed.

(** ** What a step keeps and what it establishes *)

Section Step_keeps.
Context {F : Type} {ops : FloatOps F}.

(** The fields of a bird that the constructor sets for good. *)
Definition parameters (b : Bird F) : F * F * F * F * F * F * (Z * Z * Z * Z) :=
  (r b, maxSpeed b, maxForce b,
   separationRadius b, alignmentRadius b, cohesionRadius b,
   (red b, green b, blue b, alpha b)).

Lemma parameters_flock (b : Bird F) (bs : list (Bird F)) (w h : Z) :
  parameters (flock b bs w h) = parameters b.
Proof. reflexivity. Qed.

Lemma parameters_update (b : Bird F) : parameters (update b) = parameters b.
Proof. reflexivity. Qed.

Lemma parameters_borders (b : Bird F) (w h : Z) :
  parameters (borders b w h) = parameters b.
Proof.
  unfold borders.
  repeat match goal with
         | |- context [if ?c then _ else _] => destruct c
         end; reflexivity.
Qed.

Lemma parameters_integrate (b : Bird F) (w h : Z) (a : F * F) :
  parameters (integrate w h b a) = parameters b.
Proof. unfold integrate. now rewrite parameters_borders, parameters_update. Qed.

Lemma updateSerial_birds (fs : FlockingSystem F) :
  birds (updateSerial fs) =
  map (fun b => borders (update (flock b (birds fs) (windowWidth fs) (windowHeight fs)))
                  (windowWidth fs) (windowHeight fs))
      (birds fs).
Proof. unfold updateSerial; simpl. now rewrite flock_pass_snapshot, map_map. Qed.

(** The birds [updateParallel] returns, one for one: each is [integrate]
    of the bird it comes from and of some pair of forces. *)
Lemma updateParallel_birds (fs : FlockingSystem F) :
  exists forces : list (F * F),
    length forces = length (birds fs) /\
    birds (updateParallel fs) =
    map (fun ba => integrate (windowWidth fs) (windowHeight fs) (fst ba) (snd ba))
        (combine (birds fs) forces).
Proof.
  unfold updateParallel. destruct (birds fs) as [|b0 bs'] eqn:Hbs.
  - exists []. rewrite Hbs. split; reflexivity.
  - rewrite <- Hbs. eexists. split; [|reflexivity].
    rewrite length_map, length_combine, length_seq. apply Nat.min_id.
Qed.

Lemma map_combine_fst (A B C : Type) (f : A -> C) (g : A -> B -> A) :
  (forall a c, f (g a c) = f a) ->
  forall (l : list A) (l' : list B),
    length l' = length l ->
    map f (map (fun ab => g (fst ab) (snd ab)) (combine l l')) = map f l.
Proof.
  intros Hfg l; induction l as [|a l IH]; intros [|c l'] Hlen; simpl in *;
    try discriminate; [reflexivity|].
  rewrite Hfg. f_equal. apply IH. now injection Hlen.
Qed.

End Step_keeps.

(** X4: in any arithmetic, [updateSerial] and [updateParallel] return a
    flock with the same window, the same number of birds, and for each
    bird, in order, the same radius, caps, neighbourhood radii and colour:
    a step moves birds and nothing else. *)
Theorem step_keeps_population :
  forall (F : Type) (ops : FloatOps F) (fs : FlockingSystem F),
    (map parameters (birds (updateSerial fs)) = map parameters (birds fs) /\
     windowWidth (updateSerial fs) = windowWidth fs /\
     windowHeight (updateSerial fs) = windowHeight fs /\
     length (birds (updateSerial fs)) = length (birds fs)) /\
    (map parameters (birds (updateParallel fs)) = map parameters (birds fs) /\
     windowWidth (updateParallel fs) = windowWidth fs /\
     windowHeight (updateParallel fs) = windowHeight fs /\
     length (birds (updateParallel fs)) = length (birds fs)).
Proof.
  intros F ops fs.
  assert (HS : map parameters (birds (updateSerial fs)) = map parameters (birds fs)).
  { rewrite updateSerial_birds, map_map. apply map_ext. intros b.
    now rewrite parameters_borders, parameters_update, parameters_flock. }
  assert (HP : map parameters (birds (updateParallel fs)) = map parameters (birds fs)).
  { destruct (updateParallel_birds fs) as (forces & Hlen & ->).
    apply map_combine_fst; [|assumption].
    intros b a. apply parameters_integrate. }
  split; (split; [assumption|]).
  - repeat split; try reflexivity.
    apply (f_equal (@length _)) in HS. now rewrite !length_map in HS.
  - unfold updateParallel. destruct (birds fs) eqn:Hbs.
    + rewrite Hbs. repeat split; reflexivity.
    + repeat split; try reflexivity.
      apply (f_equal (@length _)) in HP. rewrite !length_map in HP.
      unfold updateParallel in HP. rewrite Hbs in HP. exact HP.
Qed.

Module Settled_facts.
Import Exact Exact_facts Borders_facts.
Local Open Scope R_scope.

(** What a bird looks like after [update] and [borders]. *)
Definition settled (b : Bird R) (w h : Z) : Prop :=
  acceleration b = Vec 0 0 /\
  magnitude (velocity b) <= maxSpeed b /\
  in_band b w h.

Lemma update_resets (b : Bird R) : acceleration (update b) = Vec 0 0.
Proof. unfold update; simpl. unfold vscale; simpl. now rewrite !Rmult_0_r. Qed.

Lemma update_caps (b : Bird R) :
  0 <= maxSpeed b -> magnitude (velocity (update b)) <= maxSpeed b.
Proof. intros H. unfold update; simpl. now apply magnitude_limit. Qed.

Lemma borders_update_settled (c : Bird R) (w h : Z) :
  0 <= r c -> 0 <= maxSpeed c -> (0 <= w)%Z -> (0 <= h)%Z ->
  settled (borders (update c) w h) w h.
Proof.
  intros Hr Hs Hw Hh. unfold settled.
  destruct (borders_keeps (update c) w h) as (Hv & Ha & _ & Hm).
  rewrite Hv, Ha, Hm. split; [|split].
  - apply update_resets.
  - change (maxSpeed (update c)) with (maxSpeed c). now apply update_caps.
  - apply borders_into_band; assumption.
Qed.

End Settled_facts.

(** X5: in exact arithmetic, for a flock whose window has a width that is
    not negative and a positive height, and whose birds have a radius and
    a [maxSpeed] that are not negative, after [updateSerial] and after
    [updateParallel] every bird has zero acceleration, a velocity of
    magnitude at most its [maxSpeed], and a position in the band
    [[-r, width + r]] by [[-r, height + r]].  (At height zero every
    coordinate is NaN in binary32, see [Binary32_facts.flat_window].) *)
Theorem step_settles_every_bird :
  forall (fs : FlockingSystem R),
    (0 <= windowWidth fs)%Z -> (0 < windowHeight fs)%Z ->
    (forall b, In b (birds fs) -> (0 <= r b)%R /\ (0 <= maxSpeed b)%R) ->
    (forall b', In b' (birds (updateSerial fs)) ->
       Settled_facts.settled b' (windowWidth fs) (windowHeight fs)) /\
    (forall b', In b' (birds (updateParallel fs)) ->
       Settled_facts.settled b' (windowWidth fs) (windowHeight fs)).
Proof.
  intros fs Hw Hpos Hcaps.
  assert (Hh : (0 <= windowHeight fs)%Z) by lia.
  split; intros b' Hin.
  - rewrite updateSerial_birds in Hin. apply in_map_iff in Hin.
    destruct Hin as (b & <- & Hb). destruct (Hcaps b Hb) as [Hr Hs].
    now apply Settled_facts.borders_update_settled.
  - destruct (updateParallel_birds fs) as (forces & Hlen & Heq).
    rewrite Heq in Hin. apply in_map_iff in Hin.
    destruct Hin as ([b a] & <- & Hba). apply in_combine_l in Hba.
    destruct (Hcaps b Hba) as [Hr Hs]. simpl. unfold integrate.
    now apply Settled_facts.borders_update_settled.
Qed.

(** ** The statistics: [getAverageSpeed] and [getCoherence] *)

Module Stats_facts.
Import Exact Exact_facts Coherence_spec.
Local Open Scope R_scope.

Lemma Rsum_lower (l : list R) (lo : R) :
  (forall v, In v l -> lo <= v) -> INR (length l) * lo <= Rsum l.
Proof.
  induction l as [|v l IH]; intros Hall.
  - simpl. lra.
  - change (Rsum (v :: l)) with (v + Rsum l).
    change (length (v :: l)) with (S (length l)). rewrite S_INR.
    pose proof (Hall v (or_introl eq_refl)) as Hlo.
    assert (IHlo : INR (length l) * lo <= Rsum l)
      by (apply IH; intros u Hu; apply Hall; now right).
    lra.
Qed.

Lemma Rsum_upper (l : list R) (hi : R) :
  (forall v, In v l -> v <= hi) -> Rsum l <= INR (length l) * hi.
Proof.
  induction l as [|v l IH]; intros Hall.
  - simpl. lra.
  - change (Rsum (v :: l)) with (v + Rsum l).
    change (length (v :: l)) with (S (length l)). rewrite S_INR.
    pose proof (Hall v (or_introl eq_refl)) as Hhi.
    assert (IHhi : Rsum l <= INR (length l) * hi)
      by (apply IH; intros u Hu; apply Hall; now right).
    lra.
Qed.

Lemma length_positive (A : Type) (l : list A) : l <> [] -> 0 < INR (length l).
Proof. destruct l; [contradiction|]. intros _. apply lt_0_INR. simpl; lia. Qed.

Lemma mean_lower (l : list R) (lo : R) :
  l <> [] -> (forall v, In v l -> lo <= v) -> lo <= mean l.
Proof.
  intros Hne Hall. unfold mean.
  pose proof (length_positive Hne) as Hn.
  pose proof (@Rsum_lower l lo Hall) as Hlo.
  apply Rmult_le_reg_r with (INR (length l)); [assumption|].
  unfold Rdiv. rewrite Rmult_assoc, Rinv_l by lra. lra.
Qed.

Lemma mean_upper (l : list R) (hi : R) :
  l <> [] -> (forall v, In v l -> v <= hi) -> mean l <= hi.
Proof.
  intros Hne Hall. unfold mean.
  pose proof (length_positive Hne) as Hn.
  pose proof (@Rsum_upper l hi Hall) as Hhi.
  apply Rmult_le_reg_r with (INR (length l)); [assumption|].
  unfold Rdiv. rewrite Rmult_assoc, Rinv_l by lra. lra.
Qed.

Lemma map_nonempty (A B : Type) (f : A -> B) (l : list A) : l <> [] -> map f l <> [].
Proof. destruct l; [contradiction | discriminate]. Qed.

Lemma mean_constant (A : Type) (f : A -> R) (l : list A) (c : R) :
  l <> [] -> (forall a, In a l -> f a = c) -> mean (map f l) = c.
Proof.
  intros Hne Hall.
  assert (Hv : forall v, In v (map f l) -> v = c).
  { intros v Hv. apply in_map_iff in Hv. destruct Hv as (a & <- & Ha). now apply Hall. }
  pose proof (@map_nonempty _ _ f l Hne) as Hne'.
  apply Rle_antisym.
  - apply mean_upper; [assumption|]. intros v Hin. rewrite (Hv v Hin). lra.
  - apply mean_lower; [assumption|]. intros v Hin. rewrite (Hv v Hin). lra.
Qed.

(** The specification of [getAverageSpeed]: the mean of the speeds. *)
Definition mean_speed (bs : list (Bird R)) : R :=
  mean (map (fun b => magnitude (velocity b)) bs).

Lemma getAverageSpeed_mean (fs : FlockingSystem R) :
  birds fs <> [] -> getAverageSpeed (D:=R) fs = mean_speed (birds fs).
Proof.
  intros Hne. unfold getAverageSpeed, mean_speed, mean.
  destruct (birds fs) as [|b bs] eqn:Hbs; [contradiction|].
  cbv beta iota delta [to_double to_float R_R fadd fdiv of_int R_ops].
  rewrite (fold_left_Rsum (fun b => magnitude (velocity b))).
  rewrite length_map, INR_IZR_INZ, Rplus_0_l. reflexivity.
Qed.

Lemma speeds_after_serial (fs : FlockingSystem R) (top : R) :
  (forall b, In b (birds fs) -> 0 <= maxSpeed b <= top) ->
  forall v, In v (map (fun b => magnitude (velocity b)) (birds (updateSerial fs))) ->
       v <= top.
Proof.
  intros Hcaps v Hv. apply in_map_iff in Hv. destruct Hv as (b' & <- & Hb').
  rewrite updateSerial_birds in Hb'. apply in_map_iff in Hb'.
  destruct Hb' as (b & <- & Hb). destruct (Hcaps b Hb) as [H0 Htop].
  destruct (Borders_facts.borders_keeps
              (update (flock b (birds fs) (windowWidth fs) (windowHeight fs)))
              (windowWidth fs) (windowHeight fs)) as (-> & _).
  eapply Rle_trans; [apply Settled_facts.update_caps; exact H0 | exact Htop].
Qed.

Lemma speeds_nonneg (bs : list (Bird R)) :
  forall v, In v (map (fun b => magnitude (velocity b)) bs) -> 0 <= v.
Proof.
  intros v Hv. apply in_map_iff in Hv. destruct Hv as (b & <- & _).
  apply magnitude_nonneg.
Qed.

Lemma distances_nonneg (bs : list (Bird R)) (c : Vector2D R) :
  forall v, In v (map (fun b => distance (position b) c) bs) -> 0 <= v.
Proof.
  intros v Hv. apply in_map_iff in Hv. destruct Hv as (b & <- & _).
  apply magnitude_nonneg.
Qed.

(** The centroid of birds that all sit at [p] is [p]. *)
Lemma centroid_gathered (bs : list (Bird R)) (p : Vector2D R) :
  bs <> [] -> (forall b, In b bs -> position b = p) -> centroid bs = p.
Proof.
  intros Hne Hall. unfold centroid. destruct p as [px py]. f_equal.
  - apply mean_constant; [assumption|]. intros b Hb. now rewrite (Hall b Hb).
  - apply mean_constant; [assumption|]. intros b Hb. now rewrite (Hall b Hb).
Qed.

End Stats_facts.

(** X6: [getAverageSpeed()] is [0] for an empty flock in any arithmetic; in
    exact arithmetic it is the mean of the magnitudes of the velocities,
    it lies between [0] and any bound on those magnitudes, and right after
    [updateSerial] in a window whose height is not zero it is at most the
    largest [maxSpeed] of the flock.  (At height zero the velocities and
    their mean are NaN in binary32, see [Binary32_facts.flat_window].) *)
Theorem getAverageSpeed_mean_bounded :
  (forall (F D : Type) (ops : FloatOps F) (dops : FloatOps D)
          (conv : FloatConv F D) (fs : FlockingSystem F),
     birds fs = [] -> getAverageSpeed (D:=D) fs = of_int 0) /\
  (forall fs : FlockingSystem R,
     birds fs <> [] ->
     getAverageSpeed (D:=R) fs = Stats_facts.mean_speed (birds fs)) /\
  (forall (fs : FlockingSystem R) (top : R),
     birds fs <> [] ->
     (forall b, In b (birds fs) -> (magnitude (velocity b) <= top)%R) ->
     (0 <= getAverageSpeed (D:=R) fs <= top)%R) /\
  (forall (fs : FlockingSystem R) (top : R),
     birds fs <> [] -> windowHeight fs <> 0%Z ->
     (forall b, In b (birds fs) -> (0 <= maxSpeed b <= top)%R) ->
     (0 <= getAverageSpeed (D:=R) (updateSerial fs) <= top)%R).
Proof.
  split; [|split; [|split]].
  - intros F D ops dops conv fs Hnil. unfold getAverageSpeed. now rewrite Hnil.
  - apply Stats_facts.getAverageSpeed_mean.
  - intros fs top Hne Hall. rewrite Stats_facts.getAverageSpeed_mean by assumption.
    unfold Stats_facts.mean_speed.
    pose proof (@Stats_facts.map_nonempty _ _
                  (fun b : Bird R => magnitude (velocity b)) _ Hne) as Hne'.
    split.
    + apply Stats_facts.mean_lower; [assumption | apply Stats_facts.speeds_nonneg].
    + apply Stats_facts.mean_upper; [assumption|].
      intros v Hv. apply in_map_iff in Hv. destruct Hv as (b & <- & Hb).
      now apply Hall.
  - intros fs top Hne _ Hcaps.
    assert (Hne' : birds (updateSerial fs) <> []).
    { rewrite updateSerial_birds. now apply Stats_facts.map_nonempty. }
    rewrite Stats_facts.getAverageSpeed_mean by assumption.
    unfold Stats_facts.mean_speed.
    pose proof (@Stats_facts.map_nonempty _ _
                  (fun b : Bird R => magnitude (velocity b)) _ Hne') as Hne''.
    split.
    + apply Stats_facts.mean_lower; [assumption | apply Stats_facts.speeds_nonneg].
    + apply Stats_facts.mean_upper; [assumption|].
      now apply Stats_facts.speeds_after_serial.
Qed.

(** X7: in exact arithmetic [getCoherence()] is never negative, and it is
    [0] for a flock of two birds or more that all sit at one position. *)
Theorem getCoherence_nonneg_zero_when_gathered :
  (forall fs : FlockingSystem R, (0 <= getCoherence (D:=R) fs)%R) /\
  (forall (fs : FlockingSystem R) (p : Vector2D R),
     (2 <= length (birds fs))%nat ->
     (forall b, In b (birds fs) -> position b = p) ->
     getCoherence (D:=R) fs = 0%R).
Proof.
  split.
  - intros fs. destruct (Nat.lt_ge_cases (length (birds fs)) 2) as [Hlt|Hge].
    + unfold getCoherence. apply Nat.ltb_lt in Hlt. rewrite Hlt. simpl. lra.
    + rewrite Coherence_spec.getCoherence_mean by assumption.
      assert (Hne : birds fs <> []) by (destruct (birds fs); [simpl in Hge; lia | discriminate]).
      apply Stats_facts.mean_lower.
      * now apply Stats_facts.map_nonempty.
      * apply Stats_facts.distances_nonneg.
  - intros fs p Hge Hall.
    rewrite Coherence_spec.getCoherence_mean by assumption.
    assert (Hne : birds fs <> []) by (destruct (birds fs); [simpl in Hge; lia | discriminate]).
    unfold Coherence_spec.mean_distance_to_centroid.
    rewrite (@Stats_facts.centroid_gathered (birds fs) p Hne Hall).
    apply Stats_facts.mean_constant; [assumption|].
    intros b Hb. rewrite (Hall b Hb). unfold distance.
    rewrite Seek_facts.vsub_diag. apply Exact_facts.magnitude_zero.
Qed.

(** ** Building and shrinking the flock *)

Section Population_facts.
Context {F : Type} {ops : FloatOps F}.
Variable RAND_MAX : Z.
Variable rnd : nat -> Z.
Variables fcos fsin : F -> F.

(** The constants the constructor gives every bird. *)
Definition constructed (b : Bird F) : Prop :=
  r b = lit 4 1 /\ maxSpeed b = lit 2 1 /\ maxForce b = lit 3 100 /\
  separationRadius b = lit 25 1 /\ alignmentRadius b = lit 50 1 /\
  cohesionRadius b = lit 50 1 /\ alpha b = 255%Z.

Lemma constructed_Bird_new (px py : F) (vel : Vector2D F) (cr cg cb : Z) :
  constructed (Bird_new px py vel cr cg cb).
Proof. repeat split. Qed.

Lemma populate_step (n : nat) (fs : FlockingSystem F) (k : nat) :
  populate RAND_MAX rnd fcos fsin (S n) fs k =
  populate RAND_MAX rnd fcos fsin n
    (fst (emplace RAND_MAX rnd fcos fsin fs (fmul (rand_unit RAND_MAX rnd k) (of_int (windowWidth fs)))
            (fmul (rand_unit RAND_MAX rnd (k + 1)) (of_int (windowHeight fs))) (k + 2)))
    (k + 6).
Proof.
  change (populate RAND_MAX rnd fcos fsin (S n) fs k)
    with (populate RAND_MAX rnd fcos fsin n
            (fst (emplace RAND_MAX rnd fcos fsin fs (fmul (rand_unit RAND_MAX rnd k) (of_int (windowWidth fs)))
                    (fmul (rand_unit RAND_MAX rnd (k + 1)) (of_int (windowHeight fs))) (k + 2)))
            (k + 2 + 4)).
  f_equal. lia.
Qed.

Lemma populate_spec (n : nat) :
  forall (fs : FlockingSystem F) (k : nat),
    exists news : list (Bird F),
      birds (fst (populate RAND_MAX rnd fcos fsin n fs k)) = birds fs ++ news /\
      length news = n /\
      Forall constructed news /\
      Forall (fun b => acceleration b = Vec (of_int 0) (of_int 0)) news /\
      windowWidth (fst (populate RAND_MAX rnd fcos fsin n fs k)) = windowWidth fs /\
      windowHeight (fst (populate RAND_MAX rnd fcos fsin n fs k)) = windowHeight fs /\
      snd (populate RAND_MAX rnd fcos fsin n fs k) = (k + 6 * n)%nat.
Proof.
  induction n as [|n IH]; intros fs k.
  - exists []. simpl. rewrite app_nil_r. repeat split; try constructor. lia.
  - rewrite populate_step.
    set (fs1 := fst (emplace RAND_MAX rnd fcos fsin fs (fmul (rand_unit RAND_MAX rnd k) (of_int (windowWidth fs)))
                       (fmul (rand_unit RAND_MAX rnd (k + 1)) (of_int (windowHeight fs))) (k + 2))).
    destruct (IH fs1 (k + 6)%nat) as (news & Hb & Hl & Hc & Ha & Hw & Hh & Hk).
    exists (fst (Bird_ctor RAND_MAX rnd fcos fsin (fmul (rand_unit RAND_MAX rnd k) (of_int (windowWidth fs)))
                   (fmul (rand_unit RAND_MAX rnd (k + 1)) (of_int (windowHeight fs))) (k + 2))
            :: news).
    rewrite Hb, Hw, Hh, Hk. unfold fs1; simpl.
    rewrite <- app_assoc. simpl.
    repeat split; try reflexivity.
    + now rewrite Hl.
    + constructor; [apply constructed_Bird_new | exact Hc].
    + constructor; [reflexivity | exact Ha].
    + lia.
Qed.

(** [emplace RAND_MAX rnd fcos fsin] is [addBoid] with the values the constructor draws. *)
Lemma emplace_addBoid (fs : FlockingSystem F) (px py : F) (k : nat) :
  exists (vel : Vector2D F) (cr cg cb : Z),
    fst (emplace RAND_MAX rnd fcos fsin fs px py k) = addBoid fs px py vel cr cg cb.
Proof. do 4 eexists. reflexivity. Qed.

End Population_facts.

(** X8: in any arithmetic and for any sequence of [rand()] values:
    [addBoids(count)] keeps the birds it finds, in order, and appends
    [count] birds (none when [count <= 0]); [initializeBirds(n)] with
    [n >= 0] discards the birds it finds and leaves exactly [n], and with
    [n < 0] it throws.  Both use six draws per bird, keep the window, and
    every bird they make has the constants of the constructor and no
    acceleration. *)
Theorem population_is_built :
  forall (F : Type) (ops : FloatOps F) (RAND_MAX : Z) (rnd : nat -> Z)
         (fcos fsin : F -> F) (fs : FlockingSystem F) (count : Z) (k : nat),
    (exists news : list (Bird F),
       birds (fst (addBoids RAND_MAX rnd fcos fsin fs count k)) = birds fs ++ news /\
       length news = Z.to_nat count /\
       Forall constructed news /\
       Forall (fun b => acceleration b = Vec (of_int 0) (of_int 0)) news /\
       windowWidth (fst (addBoids RAND_MAX rnd fcos fsin fs count k)) = windowWidth fs /\
       windowHeight (fst (addBoids RAND_MAX rnd fcos fsin fs count k)) = windowHeight fs /\
       snd (addBoids RAND_MAX rnd fcos fsin fs count k) = (k + 6 * Z.to_nat count)%nat) /\
    ((count <= 0)%Z -> addBoids RAND_MAX rnd fcos fsin fs count k = (fs, k)) /\
    ((0 <= count)%Z ->
     exists fs' : FlockingSystem F,
       initializeBirds RAND_MAX rnd fcos fsin fs count k
         = Some (fs', (k + 6 * Z.to_nat count)%nat) /\
       length (birds fs') = Z.to_nat count /\
       Forall constructed (birds fs') /\
       Forall (fun b => acceleration b = Vec (of_int 0) (of_int 0)) (birds fs') /\
       windowWidth fs' = windowWidth fs /\ windowHeight fs' = windowHeight fs) /\
    ((count < 0)%Z -> initializeBirds RAND_MAX rnd fcos fsin fs count k = None).
Proof.
  intros F ops RAND_MAX rnd fcos fsin fs count k. split; [|split; [|split]].
  - apply populate_spec.
  - intros Hle. unfold addBoids.
    replace (Z.to_nat count) with 0%nat by lia. reflexivity.
  - intros Hge. unfold initializeBirds.
    destruct (Z.ltb_spec count 0) as [Hlt|_]; [lia|].
    destruct (populate_spec RAND_MAX rnd fcos fsin (Z.to_nat count)
                (mkFlock [] (windowWidth fs) (windowHeight fs)) k)
      as (news & Hb & Hl & Hc & Ha & Hw & Hh & Hk).
    eexists. split.
    + rewrite <- Hk. now rewrite <- surjective_pairing.
    + simpl in Hb. rewrite Hb. repeat split; assumption.
  - intros Hlt. unfold initializeBirds.
    destruct (Z.ltb_spec count 0) as [_|Hge]; [reflexivity | lia].
Qed.

Lemma removeBoids_appended (F : Type) (fs fs1 : FlockingSystem F)
    (news : list (Bird F)) :
  birds fs1 = birds fs ++ news ->
  windowWidth fs1 = windowWidth fs -> windowHeight fs1 = windowHeight fs ->
  (Z.of_nat (length (birds fs)) + Z.of_nat (length news) <= INT_MAX)%Z ->
  removeBoids fs1 (Z.of_nat (length news)) = Some fs.
Proof.
  intros Hb Hw Hh Hsize. unfold removeBoids.
  rewrite Hb, Hw, Hh, length_app.
  rewrite int_of_size_t_small by (rewrite Nat2Z.inj_add; lia).
  destruct fs as [bs w h]; simpl in *.
  destruct (Z.geb_spec (Z.of_nat (length news)) (Z.of_nat (length bs + length news))).
  - assert (length bs = 0%nat) by lia.
    destruct bs; [reflexivity | discriminate].
  - destruct (Z.ltb_spec (Z.of_nat (length news)) 0); [lia|].
    rewrite Nat2Z.id.
    replace (length bs + length news - length news)%nat with (length bs + 0)%nat by lia.
    now rewrite firstn_app_2, app_nil_r.
Qed.

(** X9: pressing [+] and then [-]: for a flock that stays within the range
    of [int], [removeBoids(n)] after [addBoids(n)] with [n >= 0] gives back
    the flock as it was, and so does [removeBoids(1)] after
    [addBoid(x, y)]. *)
Theorem add_then_remove_restores :
  forall (F : Type) (ops : FloatOps F) (fs : FlockingSystem F),
    (forall (RAND_MAX : Z) (rnd : nat -> Z) (fcos fsin : F -> F) (n : Z) (k : nat),
       (0 <= n)%Z ->
       (Z.of_nat (length (birds fs)) + n <= INT_MAX)%Z ->
       removeBoids (fst (addBoids RAND_MAX rnd fcos fsin fs n k)) n = Some fs) /\
    (forall (px py : F) (vel : Vector2D F) (cr cg cb : Z),
       (Z.of_nat (length (birds fs)) + 1 <= INT_MAX)%Z ->
       removeBoids (addBoid fs px py vel cr cg cb) 1 = Some fs).
Proof.
  intros F ops fs. split.
  - intros RAND_MAX rnd fcos fsin n k Hn Hsize.
    destruct (populate_spec RAND_MAX rnd fcos fsin (Z.to_nat n) fs k)
      as (news & Hb & Hl & _ & _ & Hw & Hh & _).
    unfold addBoids.
    replace n with (Z.of_nat (length news)) at 2 by lia.
    apply removeBoids_appended; try assumption. lia.
  - intros px py vel cr cg cb Hsize.
    apply (@removeBoids_appended F fs _ [Bird_new px py vel cr cg cb]);
      try reflexivity. simpl; lia.
Qed.

(** ** Birds as the constructor makes them, in exact arithmetic *)

Module Fresh_facts.
Import Exact Exact_facts.
Local Open Scope R_scope.

Section Draws.
Variable RAND_MAX : Z.
Variable rnd : nat -> Z.
Hypothesis RAND_MAX_positive : (0 < RAND_MAX)%Z.
Hypothesis rnd_range : forall i, (0 <= rnd i <= RAND_MAX)%Z.

Lemma rand_unit_range (k : nat) : 0 <= rand_unit RAND_MAX rnd k <= 1.
Proof.
  unfold rand_unit. change (fdiv (of_int (rnd k)) (of_int RAND_MAX))
    with (IZR (rnd k) / IZR RAND_MAX).
  destruct (rnd_range k) as [Hlo Hhi].
  apply IZR_le in Hlo, Hhi. apply IZR_lt in RAND_MAX_positive.
  split.
  - apply Rmult_le_pos; [assumption|]. apply Rlt_le, Rinv_0_lt_compat; assumption.
  - apply Rmult_le_reg_r with (IZR RAND_MAX); [assumption|].
    unfold Rdiv. rewrite Rmult_assoc, Rinv_l by lra. lra.
Qed.

(** A bird just made: inside the window, at speed [2], with a colour
    that fits a byte without wrapping. *)
Definition fresh (w h : Z) (b : Bird R) : Prop :=
  (0 <= x (position b) <= IZR w /\ 0 <= y (position b) <= IZR h) /\
  magnitude (velocity b) = 2 /\
  ((150 <= red b <= 254)%Z /\ (100 <= green b <= 199)%Z /\ (50 <= blue b <= 149)%Z).

Lemma colour_range (base m : Z) (i : nat) :
  (0 < m)%Z -> (0 <= base)%Z -> (base + m <= 256)%Z ->
  (base <= to_uint8 (base + Z.rem (rnd i) m) <= base + m - 1)%Z.
Proof.
  intros Hm Hb Hfit. destruct (rnd_range i) as [Hlo _].
  pose proof (Z.rem_bound_pos (rnd i) m Hlo Hm) as Hrem.
  unfold to_uint8. rewrite Z.mod_small; lia.
Qed.

Lemma fromAngle_speed (a : R) :
  magnitude (vscale (fromAngle cos sin a) (lit 2 1)) = 2.
Proof.
  rewrite magnitude_vscale. unfold fromAngle. rewrite magnitude_eq.
  replace (cos a * cos a + sin a * sin a) with 1
    by (pose proof (sin2_cos2 a) as H; unfold Rsqr in H; lra).
  rewrite sqrt_1. change (lit 2 1) with (2 / 1). rewrite Rabs_pos_eq; lra.
Qed.

Lemma Bird_ctor_speed (px py : R) (k : nat) :
  magnitude (velocity (fst (Bird_ctor RAND_MAX rnd cos sin px py k))) = 2.
Proof. apply fromAngle_speed. Qed.

Lemma populate_fresh (n : nat) :
  forall (fs : FlockingSystem R) (k : nat),
    (0 <= windowWidth fs)%Z -> (0 <= windowHeight fs)%Z ->
    exists news : list (Bird R),
      birds (fst (populate RAND_MAX rnd cos sin n fs k)) = birds fs ++ news /\
      Forall (fresh (windowWidth fs) (windowHeight fs)) news.
Proof.
  induction n as [|n IH]; intros fs k Hw Hh.
  - exists []. simpl. rewrite app_nil_r. split; constructor.
  - rewrite populate_step.
    set (px := fmul (rand_unit RAND_MAX rnd k) (of_int (windowWidth fs))).
    set (py := fmul (rand_unit RAND_MAX rnd (k + 1)) (of_int (windowHeight fs))).
    destruct (IH (fst (emplace RAND_MAX rnd cos sin fs px py (k + 2))) (k + 6)%nat)
      as (news & Hb & Hf); [exact Hw | exact Hh |].
    exists (fst (Bird_ctor RAND_MAX rnd cos sin px py (k + 2)) :: news).
    rewrite Hb. simpl. rewrite <- app_assoc. split; [reflexivity|].
    constructor; [|exact Hf].
    split; [|split].
    + simpl. unfold px, py.
      change (fmul ?u (of_int ?z)) with (u * IZR z).
      pose proof (rand_unit_range k) as [Hx0 Hx1].
      pose proof (rand_unit_range (k + 1)) as [Hy0 Hy1].
      apply IZR_le in Hw, Hh. split; split; nra.
    + apply Bird_ctor_speed.
    + split; [|split].
      * exact (@colour_range 150 105 (k + 2 + 1) ltac:(lia) ltac:(lia) ltac:(lia)).
      * exact (@colour_range 100 100 (k + 2 + 2) ltac:(lia) ltac:(lia) ltac:(lia)).
      * exact (@colour_range 50 100 (k + 2 + 3) ltac:(lia) ltac:(lia) ltac:(lia)).
Qed.

End Draws.
End Fresh_facts.

(** X10: exact arithmetic, with the [cos] and [sin] of the reals, a
    positive [RAND_MAX], draws within [[0, RAND_MAX]] and a window that is
    not negative.  Every bird that [initializeBirds] or [addBoids] makes
    lies inside the window, flies at speed [2] (its [maxSpeed]), and has
    red in [[150, 254]], green in [[100, 199]] and blue in [[50, 149]]:
    no colour wraps around a byte. *)
Theorem new_birds_are_fresh :
  forall (RAND_MAX : Z) (rnd : nat -> Z) (fs : FlockingSystem R) (n : Z) (k : nat),
    (0 < RAND_MAX)%Z -> (forall i, (0 <= rnd i <= RAND_MAX)%Z) ->
    (0 <= windowWidth fs)%Z -> (0 <= windowHeight fs)%Z ->
    (exists news : list (Bird R),
       birds (fst (addBoids RAND_MAX rnd cos sin fs n k)) = birds fs ++ news /\
       Forall (Fresh_facts.fresh (windowWidth fs) (windowHeight fs)) news) /\
    ((0 <= n)%Z ->
     exists st : FlockingSystem R * nat,
       initializeBirds RAND_MAX rnd cos sin fs n k = Some st /\
       Forall (Fresh_facts.fresh (windowWidth fs) (windowHeight fs)) (birds (fst st))).
Proof.
  intros RAND_MAX rnd fs n k Hmax Hrnd Hw Hh. split.
  - now apply Fresh_facts.populate_fresh.
  - intros Hn. unfold initializeBirds.
    destruct (Z.ltb_spec n 0) as [Hlt|_]; [lia|].
    eexists. split; [reflexivity|].
    destruct (@Fresh_facts.populate_fresh RAND_MAX rnd Hmax Hrnd (Z.to_nat n)
                (mkFlock [] (windowWidth fs) (windowHeight fs)) k Hw Hh)
      as (news & Hb & Hf).
    rewrite Hb. exact Hf.
Qed.

(** ** The flocks the program can hold *)

Section Reachable.
Context {F : Type} {ops : FloatOps F}.

(** The flocks that the calls of [main] produce: the constructor
    [FlockingSystem(width, height)], then [addBoid] (with any draws, which
    covers [addBoids] and [initializeBirds]), [removeBoids], [resize],
    [updateSerial] and [updateParallel]. *)
Inductive reachable : FlockingSystem F -> Prop :=
| reach_new (w h : Z) : reachable (mkFlock [] w h)
| reach_addBoid fs px py vel cr cg cb :
    reachable fs -> reachable (addBoid fs px py vel cr cg cb)
| reach_removeBoids fs count fs' :
    reachable fs -> removeBoids fs count = Some fs' -> reachable fs'
| reach_resize fs w h : reachable fs -> reachable (resize fs w h)
| reach_updateSerial fs : reachable fs -> reachable (updateSerial fs)
| reach_updateParallel fs : reachable fs -> reachable (updateParallel fs).

Lemma constructed_same_parameters (b b' : Bird F) :
  parameters b' = parameters b -> constructed b -> constructed b'.
Proof.
  unfold parameters, constructed.
  intros [= -> -> -> -> -> -> _ _ _ ->]. trivial.
Qed.

Lemma removeBoids_birds (fs fs' : FlockingSystem F) (count : Z) :
  removeBoids fs count = Some fs' ->
  exists n : nat, birds fs' = firstn n (birds fs).
Proof.
  unfold removeBoids.
  destruct (count >=? int_of_size_t (length (birds fs)))%Z.
  - intros [= <-]. now exists 0%nat.
  - destruct (count <? 0)%Z; [discriminate|]. intros [= <-]. now eexists.
Qed.

Lemma Forall_firstn_of (A : Type) (P : A -> Prop) (n : nat) (l : list A) :
  Forall P l -> Forall P (firstn n l).
Proof.
  intros H. apply Forall_forall. intros a Ha.
  rewrite Forall_forall in H. apply H.
  rewrite <- (firstn_skipn n l). apply in_or_app. now left.
Qed.

Lemma reachable_constructed (fs : FlockingSystem F) :
  reachable fs -> Forall constructed (birds fs).
Proof.
  induction 1 as [w h | fs px py vel cr cg cb _ IH | fs count fs' _ IH Hrm
                 | fs w h _ IH | fs _ IH | fs _ IH].
  - constructor.
  - simpl. apply Forall_app. split; [exact IH|].
    constructor; [apply constructed_Bird_new | constructor].
  - destruct (removeBoids_birds _ _ Hrm) as (n & ->). now apply Forall_firstn_of.
  - exact IH.
  - rewrite updateSerial_birds. apply Forall_forall. intros b' Hb'.
    apply in_map_iff in Hb'. destruct Hb' as (b & <- & Hb).
    rewrite Forall_forall in IH.
    apply (@constructed_same_parameters b); [|now apply IH].
    now rewrite parameters_borders, parameters_update, parameters_flock.
  - destruct (updateParallel_birds fs) as (forces & _ & ->).
    apply Forall_forall. intros b' Hb'.
    apply in_map_iff in Hb'. destruct Hb' as ([b a] & <- & Hb).
    apply in_combine_l in Hb. rewrite Forall_forall in IH.
    apply (@constructed_same_parameters b); [|now apply IH].
    apply parameters_integrate.
Qed.

(** [addBoids] and [initializeBirds] stay among the reachable flocks. *)
Lemma reachable_populate (RAND_MAX : Z) (rnd : nat -> Z) (fcos fsin : F -> F)
    (n : nat) :
  forall (fs : FlockingSystem F) (k : nat),
    reachable fs -> reachable (fst (populate RAND_MAX rnd fcos fsin n fs k)).
Proof.
  induction n as [|n IH]; intros fs k Hfs; [exact Hfs|].
  rewrite populate_step. apply IH.
  destruct (emplace_addBoid RAND_MAX rnd fcos fsin fs
              (fmul (rand_unit RAND_MAX rnd k) (of_int (windowWidth fs)))
              (fmul (rand_unit RAND_MAX rnd (k + 1)) (of_int (windowHeight fs)))
              (k + 2)) as (vel & cr & cg & cb & ->).
  now constructor.
Qed.

End Reachable.

(** X11: in any arithmetic, every bird of every flock the program can hold
    (built by the constructor, [addBoid], [addBoids], [initializeBirds],
    cut by [removeBoids], resized or stepped by either update) still has
    the constants of the constructor: radius 4, [maxSpeed] 2, [maxForce]
    0.03, radii 25, 50 and 50, alpha 255.  The radii are uniform, as the
    parallel kernel assumes when it reads them from [birds[0]]. *)
Theorem reachable_flocks_are_uniform :
  forall (F : Type) (ops : FloatOps F) (fs : FlockingSystem F),
    reachable fs ->
    Forall constructed (birds fs) /\
    (forall (RAND_MAX : Z) (rnd : nat -> Z) (fcos fsin : F -> F) (n : Z) (k : nat),
       reachable (fst (addBoids RAND_MAX rnd fcos fsin fs n k)) /\
       (forall st, initializeBirds RAND_MAX rnd fcos fsin fs n k = Some st ->
                   reachable (fst st))).
Proof.
  intros F ops fs Hfs. split; [now apply reachable_constructed|].
  intros RAND_MAX rnd fcos fsin n k. split.
  - now apply reachable_populate.
  - unfold initializeBirds. destruct (n <? 0)%Z; [discriminate|].
    intros st [= <-]. apply reachable_populate. constructor.
Qed.

(** ** The two updates, again *)

(** X12: in any arithmetic, the first pass of [updateSerial], which writes
    each acceleration into the vector the later calls of [flock] read,
    gives every bird the forces of the vector as it was on entry; so
    [updateSerial] returns, bird for bird, [borders] of [update] of
    [flock] on the entry state, whatever the order of the birds. *)
Theorem updateSerial_reads_entry_state :
  forall (F : Type) (ops : FloatOps F) (fs : FlockingSystem F),
    flock_pass (birds fs) (windowWidth fs) (windowHeight fs) =
      map (fun b => flock b (birds fs) (windowWidth fs) (windowHeight fs)) (birds fs) /\
    birds (updateSerial fs) =
      map (fun b => borders
                      (update (flock b (birds fs) (windowWidth fs) (windowHeight fs)))
                      (windowWidth fs) (windowHeight fs))
          (birds fs).
Proof.
  intros F ops fs. split.
  - apply flock_pass_snapshot.
  - apply updateSerial_birds.
Qed.

(** ** The two updates in binary32: rounding at the separation guard *)

Module Rounding.
Import IEEE Divergence.

(** Five birds as the constructor makes them, at whole pixels: one at
    [(100, 100)], two at [(-1, -3)] and [(-1, +3)] from it and two at
    [(+5, -5)] and [(+5, +5)].  In exact arithmetic the four separation
    terms of the first bird cancel: [2 * 1/10 - 2 * 5/50 = 0]. *)
Definition crossed : FlockingSystem float :=
  mkFlock [bird_at 100 100; bird_at 99 97; bird_at 99 103;
           bird_at 105 95; bird_at 105 105] 640 480.

Definition first_bird (fs : FlockingSystem float) : Bird float :=
  nth 0 (birds fs) (bird_at 0 0).

(** A bird is regular in a flock, in the arithmetic of the program: the
    mean velocity of its alignment neighbours and the direction from it to
    the mean position of its cohesion neighbours both pass the test
    [mag > 0] of [normalize()], which is where [align] and [seek] differ
    from the blocks of the kernel guarded by [s2 > 0]. *)
Definition regularb (b : Bird float) (bs : list (Bird float)) : bool :=
  let sa := fold_left (align_step b) bs (vzero, 0%Z) in
  let sc := fold_left (cohesion_step b) bs (vzero, 0%Z) in
  (if (snd sa >? 0)%Z
   then fgtb (magnitude (vdiv (fst sa) (of_int (snd sa)))) fzero
   else true)
  &&
  (if (snd sc >? 0)%Z
   then fgtb (magnitude (vsub (vdiv (fst sc) (of_int (snd sc))) (position b))) fzero
   else true).

End Rounding.

(** X13: agreement of the two updates on regular flocks is a fact of exact
    arithmetic only.  In binary32, on the flock [crossed] (five calls of
    [addBoid]; every bird of it is regular), the four separation terms of
    the first bird cancel to exactly zero in [separate], which therefore
    returns the zero vector, while the kernel,
    which forms them as [dx * invd * invd], is left with a rounding
    residue, normalises it and applies the whole separation force.  After
    one step the velocity of that bird is [x = 16677339 * 2^-23] (about
    1.9881) under [updateSerial] and [x = 16299852 * 2^-23] (about 1.9431)
    under [updateParallel]: 2.3 percent apart. *)
Theorem regular_flock_diverges_binary32 :
  let fs := Rounding.crossed in
  let b := Rounding.first_bird fs in
  reachable fs /\
  forallb (fun b' => Rounding.regularb b' (birds fs)) (birds fs) = true /\
  snd (fold_left (separate_step b) (birds fs) (vzero, 0%Z)) = 4%Z /\
  separate b (birds fs) = Vec (of_int 0) (of_int 0) /\
  x (velocity (Rounding.first_bird (updateSerial fs)))
    = IEEE.F32 (S754_finite false 16677339 (-23)) /\
  x (velocity (Rounding.first_bird (updateParallel fs)))
    = IEEE.F32 (S754_finite false 16299852 (-23)) /\
  Divergence.within_tolerance (1 # 10000)
    (x (velocity (Rounding.first_bird (updateSerial fs))))
    (x (velocity (Rounding.first_bird (updateParallel fs)))) = false.
Proof.
  intros fs b. split.
  - change fs
      with (addBoid (addBoid (addBoid (addBoid (addBoid
              (mkFlock (@nil (Bird IEEE.float)) 640 480)
              (of_int 100) (of_int 100) (Vec (of_int 2) (of_int 0)) 200 150 100)
              (of_int 99) (of_int 97) (Vec (of_int 2) (of_int 0)) 200 150 100)
              (of_int 99) (of_int 103) (Vec (of_int 2) (of_int 0)) 200 150 100)
              (of_int 105) (of_int 95) (Vec (of_int 2) (of_int 0)) 200 150 100)
              (of_int 105) (of_int 105) (Vec (of_int 2) (of_int 0)) 200 150 100).
    do 5 constructor. constructor.
  - vm_compute. repeat split; reflexivity.
Qed.

(** X14: in exact arithmetic and for a bound that is not negative, the
    [fast_limit] of the parallel kernel returns the coordinates of
    [Vector2D::limit]; and the kernel's steering block (multiply by
    [1 / sqrt(s2)], scale, subtract the velocity, [fast_limit]) returns
    those of normalize, scale, subtract, [limit]. *)
Theorem fast_limit_is_limit :
  forall (vx vy cap : R),
    (0 <= cap)%R ->
    fast_limit vx vy cap = (x (limit (Vec vx vy) cap), y (limit (Vec vx vy) cap)) /\
    (forall speed ux uy : R,
       (0 < vx * vx + vy * vy)%R ->
       par_steer vx vy (vx * vx + vy * vy)%R speed ux uy cap =
       (x (limit (vsub (vscale (normalize (Vec vx vy)) speed) (Vec ux uy)) cap),
        y (limit (vsub (vscale (normalize (Vec vx vy)) speed) (Vec ux uy)) cap))).
Proof.
  intros vx vy cap Hcap. split.
  - now apply Kernel_facts.fast_limit_limit.
  - intros speed ux uy Hpos. now apply Kernel_facts.par_steer_limit.
Qed.

(** ** [Vector2D::normalize] and [Vector2D::limit] *)

Module Vector_facts.
Import Exact Exact_facts.
Local Open Scope R_scope.

Lemma normalize_direction (v : Vector2D R) :
  0 < magnitude v -> normalize v = vscale v (/ magnitude v).
Proof.
  intros Hpos. rewrite (normalize_positive _ Hpos).
  destruct v as [a b]; reflexivity.
Qed.

Lemma limit_inside (v : Vector2D R) (maxMag : R) :
  magnitude v <= maxMag -> limit v maxMag = v.
Proof.
  intros Hle. apply limit_within. unfold fgtb.
  change (fltb maxMag (magnitude v)) with (Rltb maxMag (magnitude v)).
  now apply Rltb_false.
Qed.

Lemma limit_outside (v : Vector2D R) (maxMag : R) :
  0 <= maxMag -> maxMag < magnitude v -> magnitude (limit v maxMag) = maxMag.
Proof.
  intros Hm Hlt. unfold limit, fgtb.
  change (fltb maxMag (magnitude v)) with (Rltb maxMag (magnitude v)).
  apply Rltb_true in Hlt as Hb. rewrite Hb.
  rewrite magnitude_vscale, magnitude_normalize by lra.
  rewrite Rabs_pos_eq by assumption. ring.
Qed.

End Vector_facts.

(** X15: in exact arithmetic [normalize()] of a vector of positive magnitude
    is that vector scaled by the inverse of its magnitude, and has
    magnitude [1]; of a vector of magnitude zero it is the vector
    itself. *)
Theorem normalize_gives_unit_vector :
  forall v : Vector2D R,
    ((0 < magnitude v)%R ->
     normalize v = vscale v (/ magnitude v)%R /\ magnitude (normalize v) = 1%R) /\
    ((magnitude v <= 0)%R -> normalize v = v /\ v = Vec 0%R 0%R).
Proof.
  intros v. split.
  - intros Hpos. split.
    + now apply Vector_facts.normalize_direction.
    + now apply Exact_facts.magnitude_normalize.
  - intros Hnull. split.
    + now apply Exact_facts.normalize_null.
    + destruct v as [a b].
      destruct (Seek_facts.magnitude_null_inv _ _ Hnull) as [-> ->]. reflexivity.
Qed.

(** X16: in exact arithmetic and for [maxMag >= 0], [limit(maxMag)] leaves a
    vector of magnitude at most [maxMag] as it is, brings a longer one to
    magnitude exactly [maxMag], and applied twice does what it does
    once. *)
Theorem limit_clamps_magnitude :
  forall (v : Vector2D R) (maxMag : R),
    (0 <= maxMag)%R ->
    ((magnitude v <= maxMag)%R -> limit v maxMag = v) /\
    ((maxMag < magnitude v)%R -> magnitude (limit v maxMag) = maxMag) /\
    limit (limit v maxMag) maxMag = limit v maxMag.
Proof.
  intros v maxMag Hm. split; [|split].
  - apply Vector_facts.limit_inside.
  - now apply Vector_facts.limit_outside.
  - apply Vector_facts.limit_inside. now apply Exact_facts.magnitude_limit.
Qed.

(** ** More facts of binary32 arithmetic *)

Module Binary32_facts.
Import IEEE.

(** Two floats that differ in their sign at most. *)
Definition same_up_to_sign (u v : spec_float) : Prop :=
  match u, v with
  | S754_zero _, S754_zero _ => True
  | S754_infinity _, S754_infinity _ => True
  | S754_nan, S754_nan => True
  | S754_finite _ m e, S754_finite _ m' e' => m = m' /\ e = e'
  | _, _ => False
  end.

Lemma binary_round_aux_sign (s s' : bool) (m e : Z) (l : location) :
  same_up_to_sign (binary_round_aux 24 128 s m e l) (binary_round_aux 24 128 s' m e l).
Proof.
  unfold binary_round_aux.
  destruct (shr_fexp 24 128 m e l) as [mrs' e'].
  destruct (shr_fexp 24 128 (round_nearest_even (shr_m mrs') (loc_of_shr_record mrs'))
              e' loc_Exact) as [mrs'' e''].
  destruct (shr_m mrs''); simpl; auto.
  destruct (e'' <=? 104)%Z; simpl; auto.
Qed.

Lemma binary_normalize_opp (m e : Z) :
  same_up_to_sign (binary_normalize 24 128 m e false)
                  (binary_normalize 24 128 (- m) e false).
Proof.
  destruct m as [|p|p]; simpl; try exact I;
    unfold binary_round;
    destruct (shl_align p e (fexp 24 128 (Z.pos (digits2_pos p) + e))) as [mz ez];
    apply binary_round_aux_sign.
Qed.

(** [a - b] and [b - a] differ in their sign at most. *)
Lemma SFsub_swap (a b : spec_float) :
  same_up_to_sign (SFsub 24 128 a b) (SFsub 24 128 b a).
Proof.
  destruct a as [sa|sa| |sa ma ea], b as [sb|sb| |sb mb eb];
    try (destruct sa, sb; simpl; auto; fail);
    try (destruct sa; simpl; auto; fail);
    try (destruct sb; simpl; auto; fail);
    try (simpl; auto; fail).
  unfold SFsub. rewrite (Z.min_comm eb ea).
  set (za := cond_Zopp sa (Z.pos (fst (shl_align ma ea (Z.min ea eb))))).
  set (zb := cond_Zopp sb (Z.pos (fst (shl_align mb eb (Z.min ea eb))))).
  replace (zb - za)%Z with (- (za - zb))%Z by lia.
  apply binary_normalize_opp.
Qed.

Lemma SFmul_square_sign (u v : spec_float) :
  same_up_to_sign u v -> SFmul 24 128 u u = SFmul 24 128 v v.
Proof.
  destruct u as [s|s| |s m e], v as [s'|s'| |s' m' e']; simpl; try contradiction;
    try reflexivity.
  - intros _. now destruct s, s'.
  - intros _. now destruct s, s'.
  - intros [-> ->]. now destruct s, s'.
Qed.

(** The distance is symmetric, bit for bit. *)
Lemma distance_swap (p q : Vector2D float) : distance p q = distance q p.
Proof.
  destruct p as [[a] [b]], q as [[c] [d]].
  unfold distance, magnitude, vsub; simpl. unfold lift32_2; simpl.
  rewrite (@SFmul_square_sign _ _ (SFsub_swap a c)).
  rewrite (@SFmul_square_sign _ _ (SFsub_swap b d)).
  reflexivity.
Qed.

(** [v * 0] is a zero for a finite [v], and NaN otherwise. *)
Lemma SFmul_zero (v : spec_float) :
  SFmul 24 128 v (S754_zero false) =
  match v with
  | S754_zero s | S754_finite s _ _ => S754_zero s
  | _ => S754_nan
  end.
Proof. destruct v as [s|s| |s m e]; simpl; try reflexivity; now destruct s. Qed.

(** A window of height zero: [environmentalBias] divides by
    [windowHeight * 0.3f] and by [windowHeight * 0.5f], its result is NaN,
    and after one step, serial or parallel, so is every coordinate of the
    bird. *)
Lemma flat_window :
  let b := Bird_new (of_int 100) (of_int 100) (Vec (of_int 2) (of_int 0)) 200 150 100 in
  let nan := Vec (F32 S754_nan) (F32 S754_nan) in
  environmentalBias b 640 0 = nan /\
  map (fun b' => (position b', velocity b', acceleration b'))
    (birds (updateSerial (mkFlock [b] 640 0))) = [(nan, nan, nan)] /\
  map (fun b' => (position b', velocity b', acceleration b'))
    (birds (updateParallel (mkFlock [b] 640 0))) = [(nan, nan, nan)].
Proof. vm_compute. repeat split; reflexivity. Qed.

End Binary32_facts.

(** X17: in binary32, whatever the two birds hold (NaN and infinities
    included), the distance from one to the other is bit for bit the
    distance back, so the neighbour test [d > 0 && d < radius] gives the
    same answer from both sides: with uniform radii, a bird counts another
    as a neighbour exactly when the other counts it. *)
Theorem neighbour_test_is_symmetric_binary32 :
  forall (a b : Bird IEEE.float) (radius : IEEE.float),
    distance (position a) (position b) = distance (position b) (position a) /\
    in_range a b radius = in_range b a radius.
Proof.
  intros a b radius.
  pose proof (Binary32_facts.distance_swap (position a) (position b)) as Hd.
  split; [exact Hd|]. unfold in_range. now rewrite Hd.
Qed.

(** X18: in binary32 the reset [acceleration *= 0] of [update()] leaves a
    zero (of the sign of the component) where the component was finite,
    and NaN where it was NaN or infinite: [update()] does not clear an
    acceleration that is not finite. *)
Theorem update_reset_binary32 :
  forall (b : Bird IEEE.float),
    let reset (c : IEEE.float) : IEEE.float :=
      IEEE.F32 match IEEE.f32 c with
               | S754_zero s | S754_finite s _ _ => S754_zero s
               | _ => S754_nan
               end in
    acceleration (update b) =
    Vec (reset (x (acceleration b))) (reset (y (acceleration b))).
Proof.
  intros b reset. unfold update; simpl. unfold vscale; simpl.
  unfold IEEE.lift32_2; simpl.
  change (IEEE.sf_of_int 24 128 0) with (S754_zero false).
  now rewrite !Binary32_facts.SFmul_zero.
Qed.

(** * The companion character: [class Cat] *)

Module Cat_facts.
Import Exact Exact_facts Cat.
Local Open Scope R_scope.

Lemma Rleb_true (a b : R) : Rleb a b = true <-> a <= b.
Proof. unfold Rleb; destruct (Rle_dec a b); split; intros; (easy || lra). Qed.

Lemma Rleb_false (a b : R) : Rleb a b = false <-> b < a.
Proof. unfold Rleb; destruct (Rle_dec a b); split; intros; (easy || lra). Qed.

Lemma checked_in_range (z : Z) :
  (INT_MIN <= z <= INT_MAX)%Z -> checked z = Some z.
Proof.
  intros [Hlo Hhi]. unfold checked.
  apply Z.leb_le in Hlo, Hhi. now rewrite Hlo, Hhi.
Qed.

Lemma checked_some (z n : Z) : checked z = Some n -> n = z.
Proof.
  unfold checked. destruct ((INT_MIN <=? z)%Z && (z <=? INT_MAX)%Z); congruence.
Qed.

(** The centre of the cat, from the strip of its current state. *)
Definition centre_x (c : Cat R) : R := cat_x c + IZR (fw (cur c)) * scale c * (5 / 10).
Definition centre_y (c : Cat R) : R := cat_y c + IZR (fh (cur c)) * scale c * (5 / 10).

(** The loop of [update] ends, after as many iterations as whole frame
    durations have elapsed. *)
Lemma animate_ends (dur : R) (fcount : Z) :
  0 < dur -> (1 <= fcount <= INT_MAX)%Z ->
  forall (fuel : nat) (t : R) (fr : Z),
    0 <= t -> (0 <= fr < INT_MAX)%Z -> t < INR fuel * dur ->
    exists (k : nat) (t' : R),
      animate fuel t fr dur fcount
        = Some (t', if Nat.eqb k 0 then fr else ((fr + Z.of_nat k) mod fcount)%Z) /\
      t = t' + INR k * dur /\ 0 <= t' < dur.
Proof.
  intros Hdur Hfc. induction fuel as [|fuel IH]; intros t fr Ht Hfr Hfuel.
  - simpl in Hfuel. lra.
  - cbn [animate]. change (fleb dur t) with (Rleb dur t).
    destruct (Rleb dur t) eqn:Hcmp.
    + apply Rleb_true in Hcmp.
      rewrite checked_in_range by (unfold INT_MIN, INT_MAX in *; lia).
      assert (Hrem : Z.rem (fr + 1) fcount = ((fr + 1) mod fcount)%Z)
        by (apply Z.rem_mod_nonneg; lia).
      rewrite Hrem.
      pose proof (Z.mod_pos_bound (fr + 1) fcount ltac:(lia)) as Hb.
      destruct (IH (t - dur) ((fr + 1) mod fcount)%Z) as (k & t' & Hrun & Hsum & Hrange).
      * change (fsub t dur) with (t - dur). lra.
      * lia.
      * rewrite S_INR in Hfuel. lra.
      * exists (S k), t'. change (fsub t dur) with (t - dur). rewrite Hrun.
        split; [|split; [rewrite S_INR; lra | exact Hrange]].
        assert (Hframe : (if Nat.eqb k 0 then ((fr + 1) mod fcount)%Z
                          else (((fr + 1) mod fcount + Z.of_nat k) mod fcount)%Z)
                         = ((fr + Z.of_nat (S k)) mod fcount)%Z).
        { destruct (Nat.eqb k 0) eqn:Hk.
          - apply Nat.eqb_eq in Hk. subst k. f_equal.
          - rewrite Zplus_mod_idemp_l. f_equal. lia. }
        cbn [Nat.eqb]. now rewrite Hframe.
    + apply Rleb_false in Hcmp. exists 0%nat, t. simpl. split; [reflexivity|]. lra.
Qed.

(** With a frame duration that is not positive the loop never ends. *)
Lemma animate_hangs (dur : R) (fcount : Z) :
  dur <= 0 ->
  forall (fuel : nat) (t : R) (fr : Z),
    dur <= t -> animate fuel t fr dur fcount = None.
Proof.
  intros Hdur. induction fuel as [|fuel IH]; intros t fr Ht; cbn [animate];
    change (fleb dur t) with (Rleb dur t);
    apply Rleb_true in Ht as Hb; rewrite Hb; [reflexivity|].
  destruct (checked (fr + 1)); [|reflexivity].
  apply IH. change (fsub t dur) with (t - dur). lra.
Qed.

Lemma enough_fuel (t dur : R) : 0 < dur -> 0 <= t -> exists fuel : nat, t < INR fuel * dur.
Proof.
  intros Hdur Ht.
  destruct (archimed (t / dur)) as [Hup _].
  assert (Hq : 0 <= t / dur)
    by (apply Rmult_le_pos; [assumption | apply Rlt_le, Rinv_0_lt_compat, Hdur]).
  assert (Hz : (0 < up (t / dur))%Z) by (apply lt_IZR; lra).
  exists (Z.to_nat (up (t / dur))).
  rewrite INR_IZR_INZ, Z2Nat.id by lia.
  apply Rmult_lt_reg_r with (/ dur); [now apply Rinv_0_lt_compat|].
  rewrite Rmult_assoc, Rinv_r by lra. unfold Rdiv in Hup. lra.
Qed.

Lemma frameCount_positive (F : Type) (s : Strip F) (n : Z) :
  frameCount s = Some n -> (1 <= n)%Z.
Proof.
  unfold frameCount. destruct (Z.gtb_spec (frames s) 0).
  - intros [= <-]. lia.
  - destruct (checked (texW s - marginX s)) as [u|]; [|discriminate].
    destruct (checked (u + spacingX s)) as [num|]; [|discriminate].
    destruct (checked (fw s + spacingX s)) as [den|]; [|discriminate].
    destruct (den =? 0)%Z; [discriminate|]. intros [= <-]. lia.
Qed.

End Cat_facts.

(** X19: [Cat::frameCount] returns the frame count of the strip when it is
    positive; otherwise, for [int] operations within range, it divides by
    [fw + spacingX], which has no defined behaviour when that is [0].
    Whatever it returns is at least [1]: the [% fcount] of [update] and
    [render] never divides by zero. *)
Theorem frameCount_at_least_one :
  forall (F : Type) (s : Cat.Strip F),
    (forall n, Cat.frameCount s = Some n -> (1 <= n)%Z) /\
    ((0 < Cat.frames s)%Z -> Cat.frameCount s = Some (Cat.frames s)) /\
    ((Cat.frames s <= 0)%Z -> (Cat.fw s + Cat.spacingX s = 0)%Z ->
     Cat.frameCount s = None) /\
    ((Cat.frames s <= 0)%Z ->
     (INT_MIN <= Cat.texW s - Cat.marginX s <= INT_MAX)%Z ->
     (INT_MIN <= Cat.texW s - Cat.marginX s + Cat.spacingX s <= INT_MAX)%Z ->
     (INT_MIN <= Cat.fw s + Cat.spacingX s <= INT_MAX)%Z ->
     (Cat.fw s + Cat.spacingX s <> 0)%Z ->
     Cat.frameCount s =
       Some (Z.max 1 (Z.quot (Z.max 0 (Cat.texW s - Cat.marginX s + Cat.spacingX s))
                        (Cat.fw s + Cat.spacingX s)))).
Proof.
  intros F s. split; [|unfold Cat.frameCount; repeat split].
  - intros n. apply Cat_facts.frameCount_positive.
  - intros Hpos. destruct (Z.gtb_spec (Cat.frames s) 0); [reflexivity | lia].
  - intros Hle Hzero. destruct (Z.gtb_spec (Cat.frames s) 0); [lia|].
    destruct (checked (Cat.texW s - Cat.marginX s)) as [u|]; [|reflexivity].
    destruct (checked (u + Cat.spacingX s)) as [num|]; [|reflexivity].
    destruct (checked (Cat.fw s + Cat.spacingX s)) as [den|] eqn:Hden; [|reflexivity].
    apply Cat_facts.checked_some in Hden. subst den. rewrite Hzero. reflexivity.
  - intros Hle H1 H2 H3 Hnz. destruct (Z.gtb_spec (Cat.frames s) 0); [lia|].
    rewrite (Cat_facts.checked_in_range H1), (Cat_facts.checked_in_range H2),
      (Cat_facts.checked_in_range H3).
    destruct (Z.eqb_spec (Cat.fw s + Cat.spacingX s) 0); [contradiction | reflexivity].
Qed.

(** X20: in exact arithmetic, after [goTo(px, py)] the cat is moving, its
    animation is rewound, its target is [px] at the height of its own
    centre ([py] is ignored), and it faces left when [px] is left of its
    centre, right when [px] is right of it, and up only when [px] is the
    centre itself. *)
Theorem goTo_walks_level :
  forall (c : Cat.Cat R) (px py : R),
    let c' := Cat.goTo c px py in
    Cat.moving c' = true /\ Cat.frame c' = 0%Z /\ Cat.tAcc c' = 0%R /\
    Cat.tx c' = px /\ Cat.ty c' = Cat_facts.centre_y c /\
    Cat.cat_x c' = Cat.cat_x c /\ Cat.cat_y c' = Cat.cat_y c /\
    ((px < Cat_facts.centre_x c)%R -> Cat.state c' = Cat.WalkLeft) /\
    ((Cat_facts.centre_x c < px)%R -> Cat.state c' = Cat.WalkRight) /\
    (px = Cat_facts.centre_x c -> Cat.state c' = Cat.WalkUp).
Proof.
  intros c px py c'. unfold c', Cat.goTo, Cat.pickWalkState.
  set (c1 := Cat.set_moving _ true).
  assert (Hcur : Cat.cur c1 = Cat.cur c) by reflexivity.
  rewrite Hcur.
  change (Cat.tx c1) with px.
  change (Cat.cat_x c1) with (Cat.cat_x c).
  change (Cat.cat_y c1) with (Cat.cat_y c).
  change (Cat.scale c1) with (Cat.scale c).
  change (Cat.ty c1) with (Cat_facts.centre_y c).
  change (fadd (Cat.cat_y c)
            (fmul (fmul (of_int (Cat.fh (Cat.cur c))) (Cat.scale c)) (lit 5 10)))
    with (Cat_facts.centre_y c).
  change (fadd (Cat.cat_x c)
            (fmul (fmul (of_int (Cat.fw (Cat.cur c))) (Cat.scale c)) (lit 5 10)))
    with (Cat_facts.centre_x c).
  change (fsub (Cat_facts.centre_y c) (Cat_facts.centre_y c))
    with (Cat_facts.centre_y c - Cat_facts.centre_y c)%R.
  change (fsub px (Cat_facts.centre_x c)) with (px - Cat_facts.centre_x c)%R.
  replace (Cat_facts.centre_y c - Cat_facts.centre_y c)%R with 0%R by ring.
  generalize (Cat_facts.centre_x c); intros cx.
  unfold fgtb.
  change (fltb (fabs 0%R) (fabs (px - cx)%R)) with (Exact.Rltb (Rabs 0) (Rabs (px - cx))).
  change (fltb (px - cx)%R (of_int 0)) with (Exact.Rltb (px - cx) 0).
  rewrite Rabs_R0.
  destruct (Exact.Rltb 0 (Rabs (px - cx))) eqn:Habs;
    [apply Exact_facts.Rltb_true in Habs | apply Exact_facts.Rltb_false in Habs].
  - destruct (Exact.Rltb (px - cx) 0) eqn:Hneg;
      [apply Exact_facts.Rltb_true in Hneg | apply Exact_facts.Rltb_false in Hneg];
      simpl; repeat split; try reflexivity; intros H; try lra.
    subst px. rewrite Rminus_diag, Rabs_R0 in Habs. lra.
  - assert (px - cx = 0)%R.
    { destruct (Req_dec (px - cx) 0) as [Hz|Hnz]; [assumption|].
      apply Rabs_pos_lt in Hnz. lra. }
    simpl; repeat split; try reflexivity; intros H'; lra.
Qed.

Module Clamp_facts.
Import Exact Exact_facts Cat.
Local Open Scope R_scope.

(** What [clampToWindow] does to one coordinate [p] of a sprite of extent
    [d] in a window of extent [w]. *)
Definition clamp (p d w : R) : R :=
  let p1 := if Rltb p 0 then 0 else p in
  if Rltb w (p1 + d) then w - d else p1.

Lemma clampToWindow_clamp (c : Cat R) (W H : Z) :
  clampToWindow c W H =
  set_pos c (clamp (cat_x c) (IZR (fw (cur c)) * scale c) (IZR W))
            (clamp (cat_y c) (IZR (fh (cur c)) * scale c) (IZR H)).
Proof.
  assert (Hcur : forall px py, cur (set_pos c px py) = cur c) by reflexivity.
  assert (Hx : forall px py, cat_x (set_pos c px py) = px) by reflexivity.
  assert (Hy : forall px py, cat_y (set_pos c px py) = py) by reflexivity.
  assert (Hs : forall px py, scale (set_pos c px py) = scale c) by reflexivity.
  assert (Hset : forall px py qx qy,
            set_pos (set_pos c px py) qx qy = set_pos c qx qy) by reflexivity.
  assert (Hid : set_pos c (cat_x c) (cat_y c) = c) by (destruct c; reflexivity).
  unfold clampToWindow, clamp, fgtb.
  change (@fltb R _) with Rltb. change (@of_int R _) with IZR.
  change (@fadd R _) with Rplus. change (@fsub R _) with Rminus.
  change (@fmul R _) with Rmult. cbv zeta.
  generalize (IZR (fw (cur c)) * scale c) (IZR (fh (cur c)) * scale c).
  intros dw dh.
  destruct (Rltb (cat_x c) 0); rewrite ?Hset, ?Hx, ?Hy.
  all: destruct (Rltb (cat_y c) 0); rewrite ?Hset, ?Hx, ?Hy.
  all: repeat match goal with
       | |- context [if Rltb ?w (?u + ?d) then _ else _] =>
           lazymatch u with
           | context [if _ then _ else _] => fail
           | _ => idtac
           end;
           destruct (Rltb w (u + d)); rewrite ?Hset, ?Hx, ?Hy
       end; try reflexivity.
  all: now rewrite <- Hid at 1.
Qed.

Lemma clamp_bounds (p d w : R) :
  clamp p d w + d <= w /\
  (d <= w -> 0 <= clamp p d w) /\
  (w < d -> clamp p d w = w - d) /\
  (0 <= p -> p + d <= w -> clamp p d w = p) /\
  clamp (clamp p d w) d w = clamp p d w.
Proof.
  unfold clamp.
  destruct (Rltb p 0) eqn:H1;
    [apply Rltb_true in H1 | apply Rltb_false in H1].
  - destruct (Rltb w (0 + d)) eqn:H2;
      [apply Rltb_true in H2 | apply Rltb_false in H2].
    + destruct (Rltb (w - d) 0) eqn:H3;
        [apply Rltb_true in H3 | apply Rltb_false in H3].
      * rewrite (proj2 (Rltb_true w (0 + d)) H2).
        repeat split; intros; try reflexivity; lra.
      * lra.
    + rewrite (proj2 (Rltb_false 0 0)) by lra.
      rewrite (proj2 (Rltb_false w (0 + d)) H2).
      repeat split; intros; try reflexivity; lra.
  - destruct (Rltb w (p + d)) eqn:H2;
      [apply Rltb_true in H2 | apply Rltb_false in H2].
    + destruct (Rltb (w - d) 0) eqn:H3;
        [apply Rltb_true in H3 | apply Rltb_false in H3].
      * destruct (Rltb w (0 + d)) eqn:H4;
          [apply Rltb_true in H4 | apply Rltb_false in H4]; [|lra].
        repeat split; intros; try reflexivity; lra.
      * rewrite (proj2 (Rltb_false w (w - d + d))) by lra.
        repeat split; intros; try reflexivity; lra.
    + rewrite (proj2 (Rltb_false p 0)) by lra.
      rewrite (proj2 (Rltb_false w (p + d)) H2).
      repeat split; intros; try reflexivity; lra.
Qed.

End Clamp_facts.

(** X21: in exact arithmetic [clampToWindow(W, H)] leaves the sprite (of
    width [dw = fw * scale] and height [dh = fh * scale]) with its right
    and bottom edges inside the window; its left and top edges are inside
    too when the sprite fits the window, and a sprite wider than the window
    ends at [x = W - dw < 0].  A cat already inside is not moved, and a
    second call changes nothing. *)
Theorem clampToWindow_keeps_inside :
  forall (c : Cat.Cat R) (W H : Z),
    let dw := (IZR (Cat.fw (Cat.cur c)) * Cat.scale c)%R in
    let dh := (IZR (Cat.fh (Cat.cur c)) * Cat.scale c)%R in
    let c' := Cat.clampToWindow c W H in
    (Cat.cat_x c' + dw <= IZR W)%R /\ (Cat.cat_y c' + dh <= IZR H)%R /\
    ((dw <= IZR W)%R -> (0 <= Cat.cat_x c')%R) /\
    ((dh <= IZR H)%R -> (0 <= Cat.cat_y c')%R) /\
    ((IZR W < dw)%R -> Cat.cat_x c' = (IZR W - dw)%R) /\
    ((IZR H < dh)%R -> Cat.cat_y c' = (IZR H - dh)%R) /\
    ((0 <= Cat.cat_x c)%R -> (Cat.cat_x c + dw <= IZR W)%R ->
     Cat.cat_x c' = Cat.cat_x c) /\
    ((0 <= Cat.cat_y c)%R -> (Cat.cat_y c + dh <= IZR H)%R ->
     Cat.cat_y c' = Cat.cat_y c) /\
    Cat.clampToWindow c' W H = c'.
Proof.
  intros c W H dw dh c'.
  pose proof (Clamp_facts.clamp_bounds (Cat.cat_x c) dw (IZR W)) as Hx.
  pose proof (Clamp_facts.clamp_bounds (Cat.cat_y c) dh (IZR H)) as Hy.
  pose proof (Clamp_facts.clampToWindow_clamp c W H) as Hc.
  fold dw dh in Hc.
  assert (Hx' : Cat.cat_x c' = Clamp_facts.clamp (Cat.cat_x c) dw (IZR W))
    by (unfold c'; rewrite Hc; reflexivity).
  assert (Hy' : Cat.cat_y c' = Clamp_facts.clamp (Cat.cat_y c) dh (IZR H))
    by (unfold c'; rewrite Hc; reflexivity).
  rewrite Hx', Hy'.
  destruct Hx as (Hx1 & Hx2 & Hx3 & Hx4 & Hx5).
  destruct Hy as (Hy1 & Hy2 & Hy3 & Hy4 & Hy5).
  split; [exact Hx1|]. split; [exact Hy1|]. split; [exact Hx2|].
  split; [exact Hy2|]. split; [exact Hx3|]. split; [exact Hy3|].
  split; [exact Hx4|]. split; [exact Hy4|].
  unfold c'. rewrite Hc. rewrite Clamp_facts.clampToWindow_clamp.
  change (Cat.cur (Cat.set_pos c _ _)) with (Cat.cur c).
  cbn [Cat.set_pos Cat.cat_x Cat.cat_y Cat.scale].
  fold dw dh. now rewrite Hx5, Hy5.
Qed.

Module Absorbed.
Import Cat.

Section Stuck.
Context {F : Type} {ops : FloatOps F} {le : FloatLe F}.

(** When [tAcc >= frameDur] holds and [tAcc - frameDur] is [tAcc] again,
    the loop of [update] is back where it started: no amount of fuel gives
    a result. *)
Lemma animate_stuck (t dur : F) (fcount : Z) :
  fleb dur t = true -> fsub t dur = t ->
  forall (fuel : nat) (fr : Z), animate fuel t fr dur fcount = None.
Proof.
  intros Hle Hsub. induction fuel as [|fuel IH]; intros fr; cbn [animate];
    rewrite Hle; [reflexivity|].
  destruct (checked (fr + 1)); [|reflexivity].
  rewrite Hsub. apply IH.
Qed.

End Stuck.

(** The cat as the class constructs it, in binary32: the defaults of the
    class, idle, with no strip loaded, so that [cur()] is the default
    strip, of frame duration [0.05f]. *)
Definition stray32 : Cat IEEE.float :=
  mkCat (of_int 40) (of_int 0) (of_int 3) (of_int 140) (of_int 6)
    IdleBack 0%Z (of_int 0) false (of_int 0) (of_int 0) (fun _ => None).

End Absorbed.

(** X22: the animation loop of [Cat::update(dt)], once the walk is done.
    In exact arithmetic, for a frame counter in [[0, INT_MAX)]: with a
    positive frame duration and [0 <= tAcc + dt <= 2^22 * frameDur] (a
    range in which a binary32 subtraction of [frameDur] still lowers
    [tAcc]) the loop ends; it runs once per whole frame duration held in
    [tAcc + dt], leaves [0 <= tAcc < frameDur], advances [frame] by that
    many steps modulo the frame count, and moves nothing else; with a frame
    duration that is not positive and at most [tAcc + dt] the loop never
    ends.  In any arithmetic the loop never ends when [tAcc + dt >=
    frameDur] and subtracting [frameDur] gives [tAcc + dt] back; in
    binary32 that is the case of the default cat at [dt = 1048577], where
    [0.05f] is less than half the spacing of the floats. *)
Theorem cat_update_animation :
  (forall (c : Cat.Cat R) (dt : R) (fcount : Z),
     let c1 := Cat.walk c dt in
     let dur := Cat.frameDur (Cat.cur c1) in
     Cat.frameCount (Cat.cur c1) = Some fcount ->
     (fcount <= INT_MAX)%Z ->
     (0 <= Cat.frame c1 < INT_MAX)%Z ->
     (0 <= Cat.tAcc c1 + dt)%R ->
     ((0 < dur)%R -> (Cat.tAcc c1 + dt <= 4194304 * dur)%R ->
      exists (fuel k : nat) (c' : Cat.Cat R),
        Cat.cat_update fuel c dt = Some c' /\
        (0 <= Cat.tAcc c' < dur)%R /\
        (Cat.tAcc c1 + dt = Cat.tAcc c' + INR k * dur)%R /\
        Cat.frame c' =
          (if Nat.eqb k 0 then Cat.frame c1
           else ((Cat.frame c1 + Z.of_nat k) mod fcount)%Z) /\
        Cat.set_anim c' (Cat.frame c1) (Cat.tAcc c1) = c1) /\
     ((dur <= 0)%R -> (dur <= Cat.tAcc c1 + dt)%R ->
      forall fuel, Cat.cat_update fuel c dt = None)) /\
  (forall (F : Type) (ops : FloatOps F) (le : FloatLe F) (c : Cat.Cat F) (dt : F),
     let c1 := Cat.walk c dt in
     let dur := Cat.frameDur (Cat.cur c1) in
     let t := fadd (Cat.tAcc c1) dt in
     fleb dur t = true -> fsub t dur = t ->
     forall fuel, Cat.cat_update fuel c dt = None) /\
  (let c1 := Cat.walk Absorbed.stray32 (of_int 1048577) in
   let dur := Cat.frameDur (Cat.cur c1) in
   let t := fadd (Cat.tAcc c1) (of_int 1048577) in
   dur = lit 5 100 /\ Cat.frameCount (Cat.cur c1) = Some 1%Z /\
   fleb dur t = true /\ fsub t dur = t).
Proof.
  split; [|split].
  - intros c dt fcount c1 dur Hfc Hmax Hfr Ht. split.
    + intros Hdur _.
      pose proof (Cat_facts.frameCount_positive _ Hfc) as H1.
      destruct (Cat_facts.enough_fuel Hdur Ht) as (fuel & Hfuel).
      destruct (@Cat_facts.animate_ends dur fcount Hdur (conj H1 Hmax) fuel
                  (Cat.tAcc c1 + dt)%R (Cat.frame c1) Ht Hfr Hfuel)
        as (k & t' & Hrun & Hsum & Hrange).
      exists fuel, k, (Cat.set_anim c1 (if Nat.eqb k 0 then Cat.frame c1
                                        else ((Cat.frame c1 + Z.of_nat k) mod fcount)%Z) t').
      split; [|split; [exact Hrange | split; [exact Hsum | split]]].
      * unfold Cat.cat_update. fold c1. rewrite Hfc.
        change (fadd (Cat.tAcc c1) dt) with (Cat.tAcc c1 + dt)%R.
        fold dur. now rewrite Hrun.
      * reflexivity.
      * destruct c1; reflexivity.
    + intros Hdur Hle fuel. unfold Cat.cat_update. fold c1. rewrite Hfc.
      change (fadd (Cat.tAcc c1) dt) with (Cat.tAcc c1 + dt)%R. fold dur.
      now rewrite Cat_facts.animate_hangs.
  - intros F ops le c dt c1 dur t Hle Hsub fuel.
    unfold Cat.cat_update. fold c1.
    destruct (Cat.frameCount (Cat.cur c1)) as [fcount|]; [|reflexivity].
    fold dur t. now rewrite (@Absorbed.animate_stuck _ _ _ t dur fcount Hle Hsub).
  - vm_compute. repeat split; reflexivity.
Qed.

(** * The background gradient: [u8lerp] and [mix] *)

Module Gradient_facts.
Import IEEE Gradient.

Definition is_byte (z : Z) : Prop := (0 <= z <= 255)%Z.

Definition bytes : list Z := map Z.of_nat (seq 0 256).

Lemma is_byte_in (z : Z) : is_byte z -> In z bytes.
Proof.
  intros [Hlo Hhi]. unfold bytes. apply in_map_iff.
  exists (Z.to_nat z). split; [lia|]. apply in_seq. lia.
Qed.

Definition endpoints_hold (a b : Z) : bool :=
  match u8lerp a b (of_int 0), u8lerp a b (of_int 1) with
  | Some u, Some v => ((u =? a) && (v =? b))%Z
  | _, _ => false
  end.

Lemma endpoints_checked :
  forallb (fun a => forallb (endpoints_hold a) bytes) bytes = true.
Proof. vm_compute. reflexivity. Qed.

Lemma u8lerp_endpoints (a b : Z) :
  is_byte a -> is_byte b ->
  u8lerp a b (of_int 0) = Some a /\ u8lerp a b (of_int 1) = Some b.
Proof.
  intros Ha Hb. pose proof endpoints_checked as Hall.
  rewrite forallb_forall in Hall. specialize (Hall a (is_byte_in Ha)).
  rewrite forallb_forall in Hall. specialize (Hall b (is_byte_in Hb)).
  unfold endpoints_hold in Hall.
  destruct (u8lerp a b (of_int 0)) as [u|]; [|discriminate].
  destruct (u8lerp a b (of_int 1)) as [v|]; [|discriminate].
  apply andb_prop in Hall. destruct Hall as [Hu Hv].
  apply Z.eqb_eq in Hu, Hv. now subst.
Qed.

End Gradient_facts.

(** X23: in binary32, for colours whose four channels are bytes, [mix] (and
    [u8lerp] on each channel) returns exactly the first colour at [t = 0]
    and exactly the second at [t = 1]. *)
Theorem mix_hits_both_endpoints :
  forall a b : Gradient.RGBA,
    Gradient_facts.is_byte (Gradient.cr a) -> Gradient_facts.is_byte (Gradient.cg a) ->
    Gradient_facts.is_byte (Gradient.cb a) -> Gradient_facts.is_byte (Gradient.ca a) ->
    Gradient_facts.is_byte (Gradient.cr b) -> Gradient_facts.is_byte (Gradient.cg b) ->
    Gradient_facts.is_byte (Gradient.cb b) -> Gradient_facts.is_byte (Gradient.ca b) ->
    Gradient.mix a b (of_int 0) = Some a /\ Gradient.mix a b (of_int 1) = Some b.
Proof.
  intros [ar ag ab aa] [br bg bb ba].
  unfold Gradient.mix. cbn [Gradient.cr Gradient.cg Gradient.cb Gradient.ca].
  intros H1 H2 H3 H4 H5 H6 H7 H8.
  destruct (Gradient_facts.u8lerp_endpoints H1 H5) as [-> ->].
  destruct (Gradient_facts.u8lerp_endpoints H2 H6) as [-> ->].
  destruct (Gradient_facts.u8lerp_endpoints H3 H7) as [-> ->].
  destruct (Gradient_facts.u8lerp_endpoints H4 H8) as [-> ->].
  split; reflexivity.
Qed.

(** ** The further theorems at concrete birds, flocks and cats *)

Module More_witnesses.
Import Exact Exact_facts.
Local Open Scope R_scope.

(** Two birds of exact arithmetic, 10 apart on the [x] axis and so within
    every radius of each other, as two calls of [addBoid] make them. *)
Definition first_R : Bird R := Witnesses.bird_R 0 0 2 0.
Definition second_R : Bird R := Witnesses.bird_R 10 0 2 0.
Definition pair_R : FlockingSystem R := mkFlock [first_R; second_R] 640 480.

Lemma pair_R_caps (b : Bird R) :
  In b (birds pair_R) -> 0 <= r b /\ 0 <= maxSpeed b <= 2 /\ 0 <= maxForce b.
Proof. intros [<- | [<- | []]]; simpl; lra. Defined.

Lemma pair_R_reachable : reachable pair_R.
Proof.
  change pair_R
    with (addBoid (addBoid (mkFlock [] 640 480) 0 0 (Vec 2 0) 200 150 100)
            10 0 (Vec 2 0) 200 150 100).
  do 2 constructor. constructor.
Defined.

(** The cat as [main] leaves it before any sprite sheet is loaded: the
    defaults of the class, idle, with no strip. *)
Definition stray : Cat.Cat R :=
  Cat.mkCat 40 0 3 140 6 Cat.IdleBack 0%Z 0 false 0 0 (fun _ => None).

(** The colours of the sunset gradient. *)
Definition top : Gradient.RGBA := Gradient.mkRGBA 255 136 0 255.
Definition mid : Gradient.RGBA := Gradient.mkRGBA 255 66 123 255.

End More_witnesses.

Lemma borders_band_idempotent_witness :
  borders (borders (Witnesses.bird_R 645 100 2 0) 640 480) 640 480 =
  borders (Witnesses.bird_R 645 100 2 0) 640 480.
Proof.
  destruct (Witnesses.bird_R_caps 645 100 2 0) as (Hr & _ & _).
  destruct (@borders_band_idempotent (Witnesses.bird_R 645 100 2 0) 640 480 Hr)
    as [_ H]; [lia | lia | exact H].
Defined.

Lemma steering_rules_bounded_witness :
  (magnitude (separate More_witnesses.first_R (birds More_witnesses.pair_R))
   <= maxForce More_witnesses.first_R)%R /\
  (magnitude (environmentalBias More_witnesses.first_R 640 480)
   <= maxForce More_witnesses.first_R * (5 / 10))%R.
Proof.
  destruct (@steering_rules_bounded More_witnesses.first_R
              (birds More_witnesses.pair_R) 640 480) as (Hs & _ & _ & He).
  - simpl. lra.
  - split; [exact Hs | apply He; lia].
Defined.

Lemma flock_acceleration_bounded_witness :
  (magnitude (vsub (acceleration (flock More_witnesses.first_R
                                    (birds More_witnesses.pair_R) 640 480))
                (acceleration More_witnesses.first_R))
   <= 39 / 10 * maxForce More_witnesses.first_R)%R.
Proof.
  destruct (@flock_acceleration_bounded More_witnesses.first_R
              (birds More_witnesses.pair_R) 640 480) as [H _].
  - simpl. lra.
  - lia.
  - exact H.
Defined.

Lemma step_settles_every_bird_witness :
  Forall (fun b' => Settled_facts.settled b' 640 480)
    (birds (updateSerial More_witnesses.pair_R)) /\
  Forall (fun b' => Settled_facts.settled b' 640 480)
    (birds (updateParallel More_witnesses.pair_R)).
Proof.
  destruct (@step_settles_every_bird More_witnesses.pair_R) as [HS HP].
  - simpl. lia.
  - simpl. lia.
  - intros b Hb. destruct (@More_witnesses.pair_R_caps b Hb) as (Hr & [Hs _] & _).
    split; assumption.
  - split; apply Forall_forall; assumption.
Defined.

Lemma getAverageSpeed_mean_bounded_witness :
  (0 <= getAverageSpeed (D:=R) (updateSerial More_witnesses.pair_R) <= 2)%R.
Proof.
  destruct getAverageSpeed_mean_bounded as (_ & _ & _ & H).
  apply H.
  - discriminate.
  - simpl. lia.
  - intros b Hb. destruct (@More_witnesses.pair_R_caps b Hb) as (_ & Hs & _).
    exact Hs.
Defined.

Lemma getCoherence_nonneg_zero_when_gathered_witness :
  getCoherence (D:=R)
    (mkFlock [Witnesses.bird_R 5 5 2 0; Witnesses.bird_R 5 5 0 1] 640 480) = 0%R.
Proof.
  destruct getCoherence_nonneg_zero_when_gathered as [_ H].
  apply (H _ (Vec 5%R 5%R)).
  - simpl. lia.
  - intros b [<- | [<- | []]]; reflexivity.
Defined.

Lemma population_is_built_witness :
  (exists news : list (Bird IEEE.float),
     birds (fst (addBoids 32767 (fun _ => 0%Z) (fun a => a) (fun a => a)
                   Divergence.lined_up 2 0))
       = birds Divergence.lined_up ++ news /\
     length news = 2%nat /\
     Forall constructed news /\
     Forall (fun b => acceleration b = Vec (of_int 0) (of_int 0)) news /\
     snd (addBoids 32767 (fun _ => 0%Z) (fun a => a) (fun a => a)
            Divergence.lined_up 2 0) = 12%nat) /\
  (exists fs' : FlockingSystem IEEE.float,
     initializeBirds 32767 (fun _ => 0%Z) (fun a => a) (fun a => a)
       Divergence.lined_up 2 0 = Some (fs', 12%nat) /\
     length (birds fs') = 2%nat /\
     Forall constructed (birds fs') /\
     windowWidth fs' = 640%Z /\ windowHeight fs' = 480%Z) /\
  initializeBirds 32767 (fun _ => 0%Z) (fun a => a) (fun a => a)
    Divergence.lined_up (-1) 0 = None /\
  addBoids 32767 (fun _ => 0%Z) (fun a => a) (fun a => a)
    Divergence.lined_up 0 7 = (Divergence.lined_up, 7%nat).
Proof.
  destruct (@population_is_built _ _ 32767 (fun _ => 0%Z) (fun a => a) (fun a => a)
              Divergence.lined_up 2 0) as (Hadd & _ & Hinit & _).
  split; [|split; [|split]].
  - destruct Hadd as (news & Hb & Hl & Hc & Ha & _ & _ & Hk).
    exists news. repeat split; assumption.
  - destruct Hinit as (fs' & Hrun & Hl & Hc & _ & Hw & Hh); [lia|].
    exists fs'. repeat split; assumption.
  - destruct (@population_is_built _ _ 32767 (fun _ => 0%Z) (fun a => a) (fun a => a)
                Divergence.lined_up (-1) 0) as (_ & _ & _ & H).
    apply H. lia.
  - destruct (@population_is_built _ _ 32767 (fun _ => 0%Z) (fun a => a) (fun a => a)
                Divergence.lined_up 0 7) as (_ & H & _).
    apply H. lia.
Defined.

Lemma add_then_remove_restores_witness :
  removeBoids
    (fst (addBoids 32767 (fun _ => 0%Z) (fun a => a) (fun a => a)
            Divergence.lined_up 2 0)) 2
  = Some Divergence.lined_up.
Proof.
  destruct (@add_then_remove_restores _ _ Divergence.lined_up) as [H _].
  apply H.
  - lia.
  - vm_compute. discriminate.
Defined.

Lemma new_birds_are_fresh_witness :
  exists st : FlockingSystem R * nat,
    initializeBirds 32767 (fun _ => 0%Z) cos sin (mkFlock [] 640 480) 2 0 = Some st /\
    Forall (Fresh_facts.fresh 640 480) (birds (fst st)).
Proof.
  destruct (@new_birds_are_fresh 32767 (fun _ => 0%Z) (mkFlock [] 640 480) 2 0)
    as [_ H].
  - lia.
  - intros i. lia.
  - simpl. lia.
  - simpl. lia.
  - apply H. lia.
Defined.

Lemma reachable_flocks_are_uniform_witness :
  Forall constructed (birds More_witnesses.pair_R).
Proof.
  exact (proj1 (@reachable_flocks_are_uniform _ _ More_witnesses.pair_R
                  More_witnesses.pair_R_reachable)).
Defined.

Lemma fast_limit_is_limit_witness :
  fast_limit 3%R 4%R 2%R =
  (x (limit (Vec 3%R 4%R) 2%R), y (limit (Vec 3%R 4%R) 2%R)).
Proof.
  destruct (@fast_limit_is_limit 3%R 4%R 2%R) as [H _]; [lra | exact H].
Defined.

Lemma normalize_gives_unit_vector_witness :
  magnitude (normalize (Vec 3%R 4%R)) = 1%R.
Proof.
  destruct (normalize_gives_unit_vector (Vec 3%R 4%R)) as [H _].
  destruct H as [_ H]; [|exact H].
  apply Seek_facts.magnitude_positive. intros [= H _]. lra.
Defined.

Lemma limit_clamps_magnitude_witness :
  limit (limit (Vec 3%R 4%R) 2%R) 2%R = limit (Vec 3%R 4%R) 2%R.
Proof.
  destruct (@limit_clamps_magnitude (Vec 3%R 4%R) 2%R) as (_ & _ & H);
    [lra | exact H].
Defined.

Lemma frameCount_at_least_one_witness :
  Cat.frameCount (Cat.dummy (F:=R)) = Some 1%Z.
Proof.
  destruct (frameCount_at_least_one (Cat.dummy (F:=R))) as (_ & _ & _ & H).
  apply H; vm_compute; intuition discriminate.
Defined.

Lemma goTo_walks_level_witness :
  Cat.state (Cat.goTo More_witnesses.stray 500%R 300%R) = Cat.WalkRight.
Proof.
  pose proof (goTo_walks_level More_witnesses.stray 500%R 300%R) as H.
  cbv zeta in H. destruct H as (_ & _ & _ & _ & _ & _ & _ & _ & H & _).
  apply H. unfold Cat_facts.centre_x. simpl. lra.
Defined.

Lemma clampToWindow_keeps_inside_witness :
  (0 <= Cat.cat_x (Cat.clampToWindow More_witnesses.stray 640 480))%R.
Proof.
  pose proof (clampToWindow_keeps_inside More_witnesses.stray 640 480) as H.
  cbv zeta in H. destruct H as (_ & _ & H & _).
  apply H. simpl. lra.
Defined.

Lemma cat_update_animation_witness :
  (exists (fuel : nat) (c' : Cat.Cat R),
     Cat.cat_update fuel More_witnesses.stray (1 / 10)%R = Some c' /\
     (0 <= Cat.tAcc c' < 5 / 100)%R) /\
  Cat.cat_update 1000 Absorbed.stray32 (of_int 1048577) = None.
Proof.
  destruct cat_update_animation as (Hreal & Hany & Hone).
  split.
  - pose proof (Hreal More_witnesses.stray (1 / 10)%R 1%Z) as H.
    cbv zeta in H.
    destruct H as [H _].
    + reflexivity.
    + vm_compute. discriminate.
    + simpl. unfold INT_MAX. lia.
    + simpl. lra.
    + destruct H as (fuel & k & c' & Hrun & Hrange & _).
      * simpl. lra.
      * simpl. lra.
      * exists fuel, c'. split; [exact Hrun | exact Hrange].
  - cbv zeta in Hone. destruct Hone as (_ & _ & Hle & Hsub).
    exact (Hany _ _ _ Absorbed.stray32 (of_int 1048577) Hle Hsub 1000%nat).
Defined.

Lemma mix_hits_both_endpoints_witness :
  Gradient.mix More_witnesses.top More_witnesses.mid (of_int 0) = Some More_witnesses.top /\
  Gradient.mix More_witnesses.top More_witnesses.mid (of_int 1) = Some More_witnesses.mid.
Proof.
  apply mix_hits_both_endpoints; unfold Gradient_facts.is_byte; simpl; lia.
Defined.
